(** * amazon-deals: the frontend API client, the pages and the run script,
      with the ingestion core of the design document.

    The TypeScript sources (lib/api.ts, app/page.tsx, app/deal/[asin]/page.tsx,
    app/category/[slug]/page.tsx) and backend/run_all.ps1 are embedded as
    executable definitions.  The Python ingestion pipeline is not part of
    the sources at hand; its components are modelled from the design
    document and marked as such. *)

From Stdlib Require Import ZArith QArith Qminmax Qround Qabs Lia Lqa List Bool Ascii String.
From stdpp Require Import base strings pretty list gmap sorting.
Import ListNotations.
Local Open Scope string_scope.
Set Warnings "-register-all".

(** ** JavaScript values *)

Module Js.

(** The operations of the JavaScript [Number] type that the pages use.
    They are binary floating point in the engine; the development is
    generic in them. *)
Class JsNum (num : Type) := {
  n0 : num;                          (* the literal 0 *)
  n1 : num;                          (* the literal 1 *)
  n100 : num;                        (* the literal 100 *)
  nNaN : num;
  nmul : num -> num -> num;          (* a * b on numbers *)
  nround : num -> num;               (* Math.round *)
  ntoFixed : num -> nat -> string;   (* Number.prototype.toFixed(digits) *)
  ntoString : num -> string;         (* ToString on numbers *)
  ntruthy : num -> bool;             (* ToBoolean: false on 0 and NaN *)
  nofString : string -> num;         (* ToNumber on strings *)
}.

(** [String.prototype.toUpperCase]: the case mapping of the engine. *)
Class JsText := { toUpperCase : string -> string }.

Section Values.
Context {num : Type} `{JsNum num}.

(** A value as [res.json()] can produce it, plus [undefined] for an
    absent property. *)
Inductive value :=
| VUndefined
| VNull
| VBool (b : bool)
| VNum (n : num)
| VStr (s : string)
| VArr (items : list value)
| VObj (fields : list (string * value)).

(** What evaluating an expression can do besides returning: raise a
    TypeError, and convert [null] to the number 0 where an operator
    expects a number (the language's implicit coercion). *)
Inductive event := NullToZero.

Inductive exn :=
| TypeError (msg : string)
| SyntaxError (msg : string)
| Error (msg : string).

Record Eff (A : Type) := mkEff { log : list event; outcome : exn + A }.
Arguments mkEff {A} _ _.
Arguments log {A} _.
Arguments outcome {A} _.

Definition ret {A} (a : A) : Eff A := mkEff [] (inr a).
Definition throw {A} (e : exn) : Eff A := mkEff [] (inl e).
Definition tell (e : event) : Eff unit := mkEff [e] (inr tt).
Definition bind {A B} (m : Eff A) (f : A -> Eff B) : Eff B :=
  match outcome m with
  | inl e => mkEff (log m) (inl e)
  | inr a => let r := f a in mkEff (log m ++ log r) (outcome r)
  end.

(** The value of an evaluation that did not throw. *)
Definition returned {A} (m : Eff A) : option A :=
  match outcome m with inr a => Some a | inl _ => None end.

(** [o.name]: property read. *)
Fixpoint assoc (name : string) (fields : list (string * value)) : option value :=
  match fields with
  | [] => None
  | (k, v) :: rest => if String.eqb k name then Some v else assoc name rest
  end.

Definition get (o : value) (name : string) : Eff value :=
  match o with
  | VUndefined | VNull => throw (TypeError "Cannot read properties of null or undefined")
  | VObj fields => ret (default VUndefined (assoc name fields))
  | _ => ret VUndefined
  end.

(** [a ?? b] *)
Definition nullish (v : value) : bool :=
  match v with VUndefined | VNull => true | _ => false end.

Definition coalesce (a b : value) : value := if nullish a then b else a.

(** [x === null], [x === undefined] and their negations. *)
Definition is_null (v : value) : bool :=
  match v with VNull => true | _ => false end.
Definition is_undefined (v : value) : bool :=
  match v with VUndefined => true | _ => false end.

(** ToBoolean, as in [c ? a : b] and [a || b]. *)
Definition truthy (v : value) : bool :=
  match v with
  | VUndefined | VNull => false
  | VBool b => b
  | VNum n => ntruthy n
  | VStr s => negb (String.eqb s "")
  | VArr _ | VObj _ => true
  end.

(** ToString, as in a template literal or [String(a)].  An array joins
    its elements with commas, [null] and [undefined] among them as the
    empty string.  An object of a JSON payload has the methods of
    [Object.prototype] except where a key of its own hides them: under
    an own key ["toString"], which holds no function, ToPrimitive finds
    no method that yields a primitive and throws.  (An own ["valueOf"]
    changes nothing: the inherited one returns the object itself.) *)
Fixpoint toString (v : value) : Eff string :=
  match v with
  | VUndefined => ret "undefined"
  | VNull => ret "null"
  | VBool b => ret (if b then "true" else "false")
  | VNum n => ret (ntoString n)
  | VStr s => ret s
  | VArr items =>
      (fix join (l : list value) : Eff string :=
         match l with
         | [] => ret ""
         | x :: rest =>
             bind (match x with
                   | VUndefined | VNull => ret ""
                   | _ => toString x
                   end) (fun sx =>
             match rest with
             | [] => ret sx
             | _ :: _ => bind (join rest) (fun sr => ret (sx ++ "," ++ sr))
             end)
         end) items
  | VObj fields =>
      match assoc "toString" fields with
      | Some _ => throw (TypeError "Cannot convert object to primitive value")
      | None => ret "[object Object]"
      end
  end.

(** ToNumber on the values an operator can meet.  [null] becomes 0:
    this is the coercion the log records.  Arrays and objects go
    through ToPrimitive, which comes to their string or throws. *)
Definition toNumber (v : value) : Eff num :=
  match v with
  | VUndefined => ret nNaN
  | VNull => bind (tell NullToZero) (fun _ => ret n0)
  | VBool b => ret (if b then n1 else n0)
  | VNum n => ret n
  | VStr s => ret (nofString s)
  | VArr _ | VObj _ => bind (toString v) (fun s => ret (nofString s))
  end.

(** [a * b] *)
Definition mul (a b : value) : Eff value :=
  bind (toNumber a) (fun x =>
  bind (toNumber b) (fun y => ret (VNum (nmul x y)))).

(** [Math.round(a)] *)
Definition Math_round (a : value) : Eff value :=
  bind (toNumber a) (fun x => ret (VNum (nround x))).

(** [Number(a)], an explicit conversion written in the source. *)
Definition Number (a : value) : Eff value :=
  match a with
  | VNull => ret (VNum n0)
  | _ => bind (toNumber a) (fun x => ret (VNum x))
  end.

(** [a.toFixed(digits)] *)
Definition toFixed (a : value) (digits : nat) : Eff string :=
  match a with
  | VNum n => ret (ntoFixed n digits)
  | VUndefined | VNull => throw (TypeError "Cannot read properties of null or undefined")
  | _ => throw (TypeError "toFixed is not a function")
  end.

End Values.

Arguments value : clear implicits.
Arguments mkEff {A} _ _.
Arguments log {A} _.
Arguments outcome {A} _.

#[global] Instance Eff_ret : MRet Eff := fun A a => ret a.
#[global] Instance Eff_bind : MBind Eff := fun A B f m => bind m f.

End Js.

(** ** Numbers and text for running the definitions

    Exact rationals with a NaN stand in for binary floating point, and
    the case mapping of the ASCII letters for that of Unicode, so the
    definitions can be evaluated on examples.  The theorems on the pages
    hold for every [JsNum] and every [JsText]. *)

Module Rat.
Import Js.

Definition num : Type := option Q.

Definition mul (a b : num) : num :=
  match a, b with
  | Some x, Some y => Some (Qred (x * y))
  | _, _ => None
  end.

(** [Math.round]: the nearest integer, a tie going up. *)
Definition round (a : num) : num :=
  (fun x => inject_Z (Qfloor (x + (1 # 2)))) <$> a.

Fixpoint zeros (n : nat) : string :=
  match n with O => "" | S n' => String "0"%char (zeros n') end.

(** [toFixed]: the nearest multiple of [10^-digits] of the absolute
    value, a tie going up, printed with the sign of the number. *)
Definition fixed (q : Q) (digits : nat) : string :=
  let scale := (10 ^ Z.of_nat digits)%Z in
  let n := Qfloor (Qabs q * inject_Z scale + (1 # 2)) in
  let whole := pretty (n / scale)%Z in
  let frac := pretty (n mod scale)%Z in
  (if Qlt_le_dec q 0 then "-" else "")
  ++ whole
  ++ match digits with
     | O => ""
     | S _ => "." ++ zeros (digits - String.length frac) ++ frac
     end.

Definition toFixed (a : num) (digits : nat) : string :=
  match a with Some q => fixed q digits | None => "NaN" end.

(** The least number of decimals, up to [fuel], that print [q] exactly. *)
Fixpoint decimals (fuel k : nat) (q : Q) : nat :=
  match fuel with
  | O => k
  | S fuel' =>
      if Qeq_bool (inject_Z (Qfloor (q * inject_Z (10 ^ Z.of_nat k))))
                  (q * inject_Z (10 ^ Z.of_nat k))
      then k else decimals fuel' (S k) q
  end.

Definition toString (a : num) : string :=
  match a with Some q => fixed q (decimals 17 0 q) | None => "NaN" end.

Definition truthy (a : num) : bool :=
  match a with Some q => negb (Qeq_bool q 0) | None => false end.

Definition digit (c : Ascii.ascii) : option Z :=
  let n := Ascii.nat_of_ascii c in
  if (48 <=? n)%nat && (n <=? 57)%nat then Some (Z.of_nat (n - 48)) else None.

(** Digits read left to right: the value so far and the count read. *)
Fixpoint digits (s : string) (acc : Z) (count : nat) : option (Z * nat) :=
  match s with
  | EmptyString => Some (acc, count)
  | String c rest =>
      match digit c with
      | Some d => digits rest (10 * acc + d)%Z (S count)
      | None => None
      end
  end.

Fixpoint split_dot (s : string) : string * option string :=
  match s with
  | EmptyString => (EmptyString, None)
  | String c rest =>
      if Ascii.eqb c "."%char then (EmptyString, Some rest)
      else let '(a, b) := split_dot rest in (String c a, b)
  end.

(** Unsigned decimal literals; everything else is NaN, the empty string 0. *)
Definition ofString (s : string) : num :=
  match s with
  | EmptyString => Some 0%Q
  | _ =>
      let '(w, f) := split_dot s in
      match digits w 0 0, f with
      | Some (a, S _), None => Some (inject_Z a)
      | Some (a, S _), Some fs =>
          match digits fs 0 0 with
          | Some (b, S k) =>
              Some (Qred (inject_Z a + inject_Z b / inject_Z (10 ^ Z.of_nat (S k))))
          | _ => None
          end
      | _, _ => None
      end
  end.

(** Upper case on the ASCII letters. *)
Definition upper_ascii (c : Ascii.ascii) : Ascii.ascii :=
  let n := Ascii.nat_of_ascii c in
  if (97 <=? n)%nat && (n <=? 122)%nat then Ascii.ascii_of_nat (n - 32) else c.

Fixpoint upper (s : string) : string :=
  match s with
  | EmptyString => EmptyString
  | String c rest => String (upper_ascii c) (upper rest)
  end.

#[global] Instance AsciiText : JsText := {| toUpperCase := upper |}.

#[global] Instance RatNum : JsNum num := {|
  n0 := Some 0%Q;
  n1 := Some 1%Q;
  n100 := Some 100%Q;
  nNaN := None;
  nmul := mul;
  nround := round;
  ntoFixed := toFixed;
  ntoString := toString;
  ntruthy := truthy;
  nofString := ofString;
|}.

End Rat.

(** ** lib/api.ts *)

Module Api.
Import Js.

(** The second argument of [fetch]. *)
Record RequestInit := { cache : string }.

(** [URLSearchParams]: an ordered list of name-value pairs. *)
Definition URLSearchParams := list (string * string).

(** A [URL] object: the pairs of its query, and [location] for all the
    rest of the address (scheme, host, port, path, fragment). *)
Record URL := { location : string; searchParams : URLSearchParams }.

(** The URL parser and serialiser of the platform.  [new URL(s)] throws
    a TypeError on a string that is no absolute URL ([inl] here, with
    the message of the platform); otherwise the object holds the address
    as the parser normalised it and the pairs of the query that [s]
    had.  [url.toString()] puts the two together, percent-encoded. *)
Class UrlApi := {
  new_URL : string -> string + URL;
  URL_toString : URL -> string;
}.

Section Client.
Context {num : Type} `{JsNum num} `{UrlApi}.

(** What the server answered.  [body] is [None] when the payload is
    not JSON, in which case [res.json()] rejects. *)
Record Response := { status : nat; body : option (value num) }.

(** [res.ok] *)
Definition ok (res : Response) : bool :=
  (200 <=? status res)%nat && (status res <=? 299)%nat.

Inductive FetchResult :=
| NetworkError
| Responded (res : Response).

(** An async function as the tree of its awaits: it returns, throws,
    or calls [fetch] and goes on with what comes back. *)
Inductive Async (A : Type) :=
| Done (a : A)
| Fail (e : exn)
| Fetch (url : string) (init : RequestInit) (k : FetchResult -> Async A).
Arguments Done {A} _.
Arguments Fail {A} _.
Arguments Fetch {A} _ _ _.

Fixpoint abind {A B} (m : Async A) (f : A -> Async B) : Async B :=
  match m with
  | Done a => f a
  | Fail e => Fail e
  | Fetch url init k => Fetch url init (fun r => abind (k r) f)
  end.

(** Running an async function against a server. *)
Fixpoint run {A} (server : string -> RequestInit -> FetchResult)
    (m : Async A) : exn + A :=
  match m with
  | Done a => inr a
  | Fail e => inl e
  | Fetch url init k => run server (k (server url init))
  end.

(** [await fetch(url, init)] *)
Definition fetch (url : string) (init : RequestInit) : Async Response :=
  Fetch url init (fun r =>
    match r with
    | NetworkError => Fail (TypeError "fetch failed")
    | Responded res => Done res
    end).

(** [res.json()] *)
Definition json (res : Response) : Async (value num) :=
  match body res with
  | Some v => Done v
  | None => Fail (SyntaxError "Unexpected token in JSON")
  end.

Definition sp_delete (name : string) (ps : URLSearchParams) : URLSearchParams :=
  List.filter (fun p => negb (String.eqb (fst p) name)) ps.

(** [ps.set(name, v)]: the first pair of that name takes the value and
    the others go; without one the pair is appended. *)
Fixpoint sp_set (name v : string) (ps : URLSearchParams) : URLSearchParams :=
  match ps with
  | [] => [(name, v)]
  | (k, w) :: rest =>
      if String.eqb k name then (name, v) :: sp_delete name rest
      else (k, w) :: sp_set name v rest
  end.

(** [ps.get(name)] *)
Fixpoint sp_get (name : string) (ps : URLSearchParams) : option string :=
  match ps with
  | [] => None
  | (k, w) :: rest => if String.eqb k name then Some w else sp_get name rest
  end.

(** [process.env.NEXT_PUBLIC_API_BASE || "http://127.0.0.1:8000"] *)
Definition API_BASE (env_NEXT_PUBLIC_API_BASE : option string) : string :=
  match env_NEXT_PUBLIC_API_BASE with
  | Some s => if String.eqb s "" then "http://127.0.0.1:8000" else s
  | None => "http://127.0.0.1:8000"
  end.

(** [process.env.NEXT_PUBLIC_API_BASE] *)
Variable base : option string.

(** The type ["hot" | "deal"]. *)
Inductive Sort := hot | deal.

Definition Sort_str (s : Sort) : string :=
  match s with hot => "hot" | deal => "deal" end.

(** The three [url.searchParams.set] lines of [fetchDeals], on the
    object that [new URL] made.  [category] and [sort] are [None] when
    the argument is [undefined]; the default value of [sort] is
    ["hot"]. *)
Definition fetchDeals_url (url : URL) (category : option string) (sort : option Sort) : URL :=
  let sort := default hot sort in
  let url := {| location := location url;
                searchParams := sp_set "limit" "100" (searchParams url) |} in
  let url := {| location := location url;
                searchParams := sp_set "sort" (Sort_str sort) (searchParams url) |} in
  match category with
  | Some c =>
      if negb (String.eqb c "")
      then {| location := location url;
              searchParams := sp_set "category" c (searchParams url) |}
      else url
  | None => url
  end.

Definition fetchDeals (category : option string) (sort : option Sort) : Async (value num) :=
  match new_URL (API_BASE base ++ "/api/deals") with
  | inl msg => Fail (TypeError msg)
  | inr url =>
      let url := fetchDeals_url url category sort in
      abind (fetch (URL_toString url) {| cache := "no-store" |}) (fun res =>
      if negb (ok res) then Fail (Error "Failed to load deals")
      else json res)
  end.

Definition fetchDeal (asin : string) : Async (value num) :=
  abind (fetch (API_BASE base ++ "/api/deal/" ++ asin) {| cache := "no-store" |}) (fun res =>
  if negb (ok res) then Fail (Error "Failed to load deal")
  else json res).

End Client.

Arguments Done {num A} _.
Arguments Fail {num A} _.
Arguments Fetch {num A} _ _ _.
Arguments NetworkError {num}.

(** A parser and serialiser for running the definitions.  They take an
    address with the scheme http or https to be normalised already and
    without query or fragment, as the default base is, and reject every
    other string; the query is printed without escaping. *)
Fixpoint sp_toString (ps : URLSearchParams) : string :=
  match ps with
  | [] => ""
  | [(k, w)] => k ++ "=" ++ w
  | (k, w) :: rest => k ++ "=" ++ w ++ "&" ++ sp_toString rest
  end.

Definition plain_new_URL (s : string) : string + URL :=
  if String.prefix "http://" s || String.prefix "https://" s
  then inr {| location := s; searchParams := [] |}
  else inl "Invalid URL".

Definition plain_URL_toString (u : URL) : string :=
  match searchParams u with
  | [] => location u
  | ps => location u ++ "?" ++ sp_toString ps
  end.

#[global] Instance PlainUrl : UrlApi :=
  {| new_URL := plain_new_URL; URL_toString := plain_URL_toString |}.

#[global] Instance Async_ret {num} : MRet (@Async num) := fun A a => Done a.
#[global] Instance Async_bind {num} : MBind (@Async num) := fun A B f m => abind m f.

End Api.

(** ** The pages *)

Module Pages.
Import Js Api.

Section Views.
Context {num : Type} `{JsNum num} `{JsText} `{UrlApi}.
Variable base : option string.

Local Abbreviation value := (Js.value num).
Local Abbreviation Async := (@Api.Async num).

(** A rejected render: the log is for the expression level only. *)
Definition lift {A} (m : Eff A) : Async A :=
  match outcome m with
  | inl e => Fail e
  | inr a => Done a
  end.

(** [data.items || []], then [items.map]. *)
Definition items_of (data : value) : Eff (list value) :=
  v ← get data "items";
  match (if truthy v then v else VArr []) with
  | VArr l => mret l
  | _ => throw (TypeError "items.map is not a function")
  end.

(** [Math.round(v)] as the text it is printed as, in a template or as
    a child. *)
Definition rounded (v : value) : Eff string :=
  r ← Math_round v; toString r.

(** [x !== null && x !== undefined] *)
Definition present (x : value) : bool :=
  negb (is_null x) && negb (is_undefined x).

(** *** app/page.tsx *)

Definition pct (x : value) : Eff string :=
  if is_null x || is_undefined x then mret "-"
  else p ← mul x (VNum n100); r ← Math_round p; t ← toString r; mret (t ++ "%").

(** [searchParams?.sort === "deal" ? "deal" : "hot"]; the outer option
    is the optional [searchParams], the inner one its optional [sort]. *)
Definition Page_sort (searchParams : option (option string)) : Sort :=
  match searchParams with
  | Some (Some s) => if String.eqb s "deal" then deal else hot
  | _ => hot
  end.

(** The expressions of one card of the top page, in source order.  A
    child or attribute that is a field as it came ([d.title],
    [d.amazon_url]) stays a value: the component hands it to React
    as it is. *)
Record TopCard := {
  tc_key : string;
  tc_category : string;
  tc_hot : string;
  tc_deal : string;
  tc_demand : string;
  tc_href : string;
  tc_title : value;
  tc_now : string;
  tc_typical : string;
  tc_drop : string;
  tc_confidence : string;
  tc_amazon_url : value;
}.

Definition Page_card (d : value) : Eff TopCard :=
  asin ← get d "asin";
  category ← get d "category";
  key_asin ← toString asin;
  key_category ← toString category;
  category_text ← toString category;
  hot_score ← get d "hot_score";
  score ← get d "score";
  hot_text ← rounded (coalesce (coalesce hot_score score) (VNum n0));
  deal_text ← rounded (coalesce score (VNum n0));
  demand_score ← get d "demand_score";
  demand_text ←
    (if present demand_score
     then t ← rounded (coalesce demand_score (VNum n0)); mret (" • Demand " ++ t)
     else mret "");
  href_asin ← toString asin;
  title ← get d "title";
  price_current ← get d "price_current";
  now_text ← toFixed (coalesce price_current (VNum n0)) 2;
  price_median_90d ← get d "price_median_90d";
  typical_text ← toFixed (coalesce price_median_90d (VNum n0)) 2;
  discount_pct_90d ← get d "discount_pct_90d";
  drop_text ← pct discount_pct_90d;
  confidence ← get d "confidence";
  confidence_text ← rounded (coalesce confidence (VNum n0));
  amazon_url ← get d "amazon_url";
  mret {| tc_key := key_asin ++ "-" ++ key_category;
          tc_category := toUpperCase category_text;
          tc_hot := hot_text;
          tc_deal := deal_text;
          tc_demand := demand_text;
          tc_href := "/deal/" ++ href_asin;
          tc_title := title;
          tc_now := now_text;
          tc_typical := typical_text;
          tc_drop := drop_text;
          tc_confidence := confidence_text;
          tc_amazon_url := amazon_url |}.

Record TopView := {
  tv_note : string;          (* the paragraph under the heading *)
  tv_weight_hot : nat;       (* fontWeight of the "Most wanted" link *)
  tv_weight_deal : nat;      (* fontWeight of the "Best deal" link *)
  tv_cards : list TopCard;
}.

Definition Sort_eqb (a b : Sort) : bool :=
  match a, b with hot, hot | deal, deal => true | _, _ => false end.

Definition Page_view (sort : Sort) (data : value) : Eff TopView :=
  items ← items_of data;
  cards ← mapM Page_card items;
  mret {| tv_note :=
            if Sort_eqb sort hot
            then "Sorted by Hot Score (deal quality + demand)."
            else "Sorted by Deal Score (discount strength + price stability).";
          tv_weight_hot := if Sort_eqb sort hot then 700 else 400;
          tv_weight_deal := if Sort_eqb sort deal then 700 else 400;
          tv_cards := cards |}.

Definition Page (searchParams : option (option string)) : Async TopView :=
  let sort := Page_sort searchParams in
  data ← fetchDeals base None (Some sort);
  lift (Page_view sort data).

(** *** app/deal/[asin]/page.tsx *)

Record DemandBlock := {
  db_demand : string;
  db_rank : string;
  db_rating : string;
  db_reviews : string;
}.

Record DealView := {
  dv_title : value;
  dv_brand : string;
  dv_category : value;
  dv_now : string;
  dv_typical : string;
  dv_drop : string;
  dv_confidence : string;
  dv_score : string;
  dv_hot : option string;
  dv_demand : option DemandBlock;
  dv_amazon_url : value;
}.

Definition DealPage_demand (d : value) : Eff DemandBlock :=
  demand_score ← get d "demand_score";
  demand_text ← rounded demand_score;
  sales_rank_current ← get d "sales_rank_current";
  rank_text ←
    (if truthy sales_rank_current
     then t ← rounded sales_rank_current; mret (" • Rank " ++ t)
     else mret "");
  rating ← get d "rating";
  rating_text ←
    (if truthy rating
     then n ← Number rating; t ← toFixed n 1; mret (" • Rating " ++ t)
     else mret "");
  review_count ← get d "review_count";
  reviews_text ←
    (if truthy review_count
     then t ← toString review_count; mret (" • Reviews " ++ t)
     else mret "");
  mret {| db_demand := demand_text;
          db_rank := rank_text;
          db_rating := rating_text;
          db_reviews := reviews_text |}.

Definition DealPage_view (d : value) : Eff DealView :=
  title ← get d "title";
  brand ← get d "brand";
  brand_text ←
    (if truthy brand
     then t ← toString brand; mret ("Brand: " ++ t)
     else mret "");
  category ← get d "category";
  price_current ← get d "price_current";
  now_text ← toFixed (coalesce price_current (VNum n0)) 2;
  price_median_90d ← get d "price_median_90d";
  typical_text ← toFixed (coalesce price_median_90d (VNum n0)) 2;
  discount_pct_90d ← get d "discount_pct_90d";
  p ← mul (coalesce discount_pct_90d (VNum n0)) (VNum n100);
  drop_text ← rounded p;
  confidence ← get d "confidence";
  confidence_text ← rounded (coalesce confidence (VNum n0));
  score ← get d "score";
  score_text ← rounded (coalesce score (VNum n0));
  hot_score ← get d "hot_score";
  hot ←
    (if present hot_score
     then t ← rounded hot_score; mret (Some t)
     else mret None);
  demand_score ← get d "demand_score";
  demand ←
    (if present demand_score
     then b ← DealPage_demand d; mret (Some b)
     else mret None);
  amazon_url ← get d "amazon_url";
  mret {| dv_title := title;
          dv_brand := brand_text;
          dv_category := category;
          dv_now := now_text;
          dv_typical := typical_text;
          dv_drop := drop_text ++ "%";
          dv_confidence := confidence_text;
          dv_score := score_text;
          dv_hot := hot;
          dv_demand := demand;
          dv_amazon_url := amazon_url |}.

Definition DealPage (params_asin : string) : Async DealView :=
  d ← fetchDeal base params_asin;
  lift (DealPage_view d).

(** *** app/category/[slug]/page.tsx *)

Record CategoryCard := {
  cc_key : string;
  cc_score : string;
  cc_confidence : string;
  cc_href : string;
  cc_title : value;
  cc_now : string;
  cc_median : string;
  cc_drop : string;
  cc_amazon_url : value;
}.

Definition CategoryPage_card (d : value) : Eff CategoryCard :=
  asin ← get d "asin";
  category ← get d "category";
  key_asin ← toString asin;
  key_category ← toString category;
  score ← get d "score";
  score_text ← rounded (coalesce score (VNum n0));
  confidence ← get d "confidence";
  confidence_text ← rounded (coalesce confidence (VNum n0));
  href_asin ← toString asin;
  title ← get d "title";
  price_current ← get d "price_current";
  now_text ← toFixed (coalesce price_current (VNum n0)) 2;
  price_median_90d ← get d "price_median_90d";
  median_text ← toFixed (coalesce price_median_90d (VNum n0)) 2;
  discount_pct_90d ← get d "discount_pct_90d";
  p ← mul (coalesce discount_pct_90d (VNum n0)) (VNum n100);
  drop_text ← rounded p;
  amazon_url ← get d "amazon_url";
  mret {| cc_key := key_asin ++ "-" ++ key_category;
          cc_score := score_text;
          cc_confidence := confidence_text;
          cc_href := "/deal/" ++ href_asin;
          cc_title := title;
          cc_now := now_text;
          cc_median := median_text;
          cc_drop := drop_text ++ "%";
          cc_amazon_url := amazon_url |}.

Record CategoryView := { cv_slug : string; cv_cards : list CategoryCard }.

Definition CategoryPage_view (slug : string) (data : value) : Eff CategoryView :=
  items ← items_of data;
  cards ← mapM CategoryPage_card items;
  mret {| cv_slug := slug; cv_cards := cards |}.

Definition CategoryPage (params_slug : string) : Async CategoryView :=
  data ← fetchDeals base (Some params_slug) None;
  lift (CategoryPage_view params_slug data).

End Views.
End Pages.

(** ** backend/run_all.ps1 *)

Module RunAll.

(** The [param(...)] block: two switches. *)
Record Params := { KeepHistory : bool; NoOpen : bool }.

(** What the script asks of the machine it runs on. *)
Record Host := {
  PSScriptRoot : string;
  python_exists : bool;        (* Test-Path $python *)
  pg_accepts : nat -> bool;    (* does attempt i of the psql probe succeed *)
  start_error : string -> option string;
    (* the error of a command that cannot be started: a program that
       is not found, a file that Start-Process cannot open *)
}.

(** The process environment, the console and the commands run as child
    processes so far, each with the environment it inherited. *)
Record State := {
  env : gmap string string;
  console : list string;
  spawned : list (string * gmap string string);
}.

(** A script step: it ends in a terminating error (a [throw]) or in a
    value, and leaves a state either way. *)
Definition Script (A : Type) : Type := State -> (string + A) * State.

#[global] Instance Script_ret : MRet Script := fun A a st => (inr a, st).
#[global] Instance Script_bind : MBind Script := fun A B f m st =>
  match m st with
  | (inl e, st') => (inl e, st')
  | (inr a, st') => f a st'
  end.

Definition throw {A} (msg : string) : Script A := fun st => (inl msg, st).

Definition Write_Host (line : string) : Script unit := fun st =>
  (inr tt, {| env := env st; console := console st ++ [line]; spawned := spawned st |}).

(** [$env:NAME = v] *)
Definition set_env (name v : string) : Script unit := fun st =>
  (inr tt, {| env := <[name := v]> (env st); console := console st; spawned := spawned st |}).

(** The record of a command that the script runs as a child process:
    the child gets the environment of that moment. *)
Definition run_child (cmd : string) : Script unit := fun st =>
  (inr tt, {| env := env st; console := console st;
              spawned := spawned st ++ [(cmd, env st)] |}).

Definition Join_Path (a b : string) : string := a ++ "\" ++ b.

Definition nl : string := String (Ascii.ascii_of_nat 10) EmptyString.

Definition container : string := "amazon_deals_postgres".
Definition maxAttempts : nat := 60.

Definition show_nat (n : nat) : string := pretty n.

Section Run.
Variable host : Host.
Variable p : Params.

(** A command outside every [try]: under [$ErrorActionPreference =
    "Stop"] one that cannot be started ends the script with its error;
    the exit code of one that ran is not looked at. *)
Definition invoke (cmd : string) : Script unit :=
  match start_error host cmd with
  | Some err => throw err
  | None => run_child cmd
  end.

Definition backend : string := PSScriptRoot host.
Definition composeFile : string := Join_Path backend "..\docker-compose.yml".
Definition python : string := Join_Path backend ".venv\Scripts\python.exe".

(** Lines 18-20. *)
Definition check_venv : Script unit :=
  if negb (python_exists host)
  then throw ("Venv python not found at: " ++ python ++ " (did you create .venv?)")
  else mret tt.

(** Lines 22-29. *)
Definition set_purge : Script unit :=
  if KeepHistory p
  then _ ← set_env "PURGE_DEALS_ON_START" "0";
       Write_Host "PURGE_DEALS_ON_START=0 (keeping previous deals)"
  else _ ← set_env "PURGE_DEALS_ON_START" "1";
       Write_Host "PURGE_DEALS_ON_START=1 (purging previous deals)".

(** Lines 38-47: the loop from attempt [i] with [left] attempts to go.
    The probe is inside the [try]: whatever goes wrong with it, not
    being able to start it included, is an attempt that [pg_accepts]
    counts as failed. *)
Fixpoint wait_postgres (left i : nat) : Script unit :=
  match left with
  | O => mret tt
  | S left' =>
      _ ← run_child ("docker exec -i " ++ container ++ " psql -U deals -d deals -c select 1;");
      if pg_accepts host i
      then Write_Host "Postgres is ready."
      else if Nat.eqb i maxAttempts
           then throw ("Postgres not ready after " ++ show_nat maxAttempts ++ " attempts.")
           else wait_postgres left' (S i)
  end.

Definition ingestion_cmd : string := python ++ " -m app.ingestion".

(** Lines 13-16. *)
Definition banner : Script unit :=
  _ ← Write_Host ("Backend: " ++ backend);
  _ ← Write_Host ("Compose:  " ++ composeFile);
  _ ← Write_Host ("Python:   " ++ python);
  Write_Host ("Container:" ++ container).

(** Lines 31-47. *)
Definition start_services : Script unit :=
  _ ← Write_Host (nl ++ "[1/4] Starting docker services...");
  _ ← invoke ("docker compose -f " ++ composeFile ++ " up -d");
  _ ← Write_Host (nl ++ "[2/4] Waiting for Postgres to be ready...");
  wait_postgres maxAttempts 1.

(** Lines 49-75. *)
Definition ingest_and_report : Script unit :=
  _ ← Write_Host (nl ++ "[3/4] Running ingestion...");
  _ ← invoke ingestion_cmd;
  _ ← Write_Host (nl ++ "[4/4] Generating top_deals.html...");
  _ ← invoke (python ++ " " ++ Join_Path backend "make_top_deals_html.py");
  _ ← Write_Host (nl ++ "DB Summary:");
  _ ← invoke ("docker exec -it " ++ container ++ " psql -U deals -d deals -c <summary>");
  _ ← Write_Host "Active by category:";
  invoke ("docker exec -it " ++ container ++ " psql -U deals -d deals -c <active by category>").

(** Lines 77-84. *)
Definition open_html : Script unit :=
  let html := Join_Path backend "top_deals.html" in
  if negb (NoOpen p)
  then _ ← Write_Host (nl ++ "Opening: " ++ html); invoke ("Start-Process " ++ html)
  else Write_Host (nl ++ "HTML generated at: " ++ html).

Definition run_all : Script unit :=
  _ ← banner;
  _ ← check_venv;
  _ ← set_purge;
  _ ← start_services;
  _ ← ingest_and_report;
  open_html.

End Run.

Definition start (e : gmap string string) : State :=
  {| env := e; console := []; spawned := [] |}.

(** The value a state holds for the purge switch. *)
Definition purge_switch (st : State) : option string :=
  env st !! "PURGE_DEALS_ON_START".

End RunAll.

(** ** The ingestion core

    The Python package [app.ingestion] that [run_all.ps1] launches is not
    among the sources.  The definitions of this module follow the design
    document, sections 3, 4.2 to 4.6 and 7. *)

Module Core.

(** Modelled from the spec: the tunable constants of the missing
    ingestion package ("weights are tunable constants, must be named"). *)
Record Config := {
  windowHours : Z;        (* trailing window, 90 days by default *)
  minSamples : nat;       (* minimum in-window sample count for a median *)
  freshnessHours : Z;     (* the latest sample is stale beyond this age *)
  confFloor : Z;          (* confidence range *)
  confCeil : Z;
  confBase : Z;
  wCount : Z;             (* gain per sample, up to [saturation] samples *)
  saturation : Z;
  wStale : Z;             (* penalty of a stale series *)
  wGap : Z;               (* penalty of gaps, per window length *)
  scoreFloor : Q;         (* deal score of a record without discount *)
  scoreMid : Q;           (* neutral midpoint of the deal score *)
  wDiscount : Q;
  wStability : Q;
  wDemand : Q;            (* share of demand in the hot score *)
  purge : bool;           (* delete all prior rows at commit *)
}.

Definition default_config : Config :=
  {| windowHours := 90 * 24; minSamples := 3; freshnessHours := 48;
     confFloor := 0; confCeil := 100; confBase := 50;
     wCount := 2; saturation := 25; wStale := 30; wGap := 40;
     scoreFloor := 0; scoreMid := 50; wDiscount := 7 # 10; wStability := 3 # 10;
     wDemand := 1 # 2; purge := false |}.

(** Modelled from the spec: the PriceSeries of section 3, a sequence of
    (timestamp, price) samples; timestamps in hours, prices in minor
    currency units. *)
Definition Sample : Type := Z * Z.
Definition PriceSeries : Type := list Sample.

Section Engine.
Variable cfg : Config.
Variable now : Z.

(** *** Statistics Engine (section 4.2) *)

(** Modelled from the spec: the trailing window, both ends included
    (the sample at [t - 90d] of the scenario counts). *)
Definition in_window (s : Sample) : bool :=
  (now - windowHours cfg <=? fst s)%Z && (fst s <=? now)%Z.

Definition window_prices (series : PriceSeries) : list Z :=
  List.map snd (List.filter in_window series).

Definition sort_prices (ps : list Z) : list Z := merge_sort Z.le ps.

(** Modelled from the spec: the statistical median of a sorted list,
    the middle element or the mean of the two middle ones. *)
Definition median_sorted (ps : list Z) : option Q :=
  let n := length ps in
  if (n =? 0)%nat then None
  else if Nat.odd n
       then Some (inject_Z (nth (n / 2) ps 0%Z))
       else Some ((inject_Z (nth (n / 2 - 1) ps 0%Z) + inject_Z (nth (n / 2) ps 0%Z)) / 2)%Q.

(** Modelled from the spec: [priceMedian90d], undefined below the
    minimum sample count. *)
Definition priceMedian90d (series : PriceSeries) : option Q :=
  let ps := window_prices series in
  if (length ps <? minSamples cfg)%nat then None
  else median_sorted (sort_prices ps).

(** Modelled from the spec: the latest sample, the one of the greatest
    timestamp, the later position winning a tie. *)
Fixpoint latest (series : PriceSeries) : option Sample :=
  match series with
  | [] => None
  | s :: rest =>
      match latest rest with
      | Some r => if (fst s <? fst r)%Z || (fst s =? fst r)%Z then Some r else Some s
      | None => Some s
      end
  end.

(** Modelled from the spec: [priceCurrent], the latest sample's price. *)
Definition priceCurrent (series : PriceSeries) : option Z :=
  snd <$> latest series.

(** Modelled from the spec: the staleness flag of section 4.2. *)
Definition stale (series : PriceSeries) : bool :=
  match latest series with
  | Some s => (freshnessHours cfg <? now - fst s)%Z
  | None => true
  end.

(** Modelled from the spec: [discountPct90d], undefined without a
    positive median, else [(median - current) / median] clamped to at
    most 1. *)
Definition discountPct90d (median : option Q) (current : option Z) : option Q :=
  match median, current with
  | Some m, Some c =>
      if Qle_bool m 0 then None
      else Some (Qmin 1 ((m - inject_Z c) / m))%Q
  | _, _ => None
  end.

(** Modelled from the spec: the output of the Statistics Engine; the
    dispersion measure [stability] is an input of the Score Composer
    below and is not computed here. *)
Record Statistics := {
  st_priceCurrent : option Z;
  st_priceMedian90d : option Q;
  st_discountPct90d : option Q;
  st_stale : bool;
}.

Definition statistics (series : PriceSeries) : Statistics :=
  let m := priceMedian90d series in
  let c := priceCurrent series in
  {| st_priceCurrent := c; st_priceMedian90d := m;
     st_discountPct90d := discountPct90d m c; st_stale := stale series |}.

(** *** Confidence Estimator (section 4.3) *)

Definition clamp (lo hi x : Z) : Z := Z.max lo (Z.min hi x).

(** Modelled from the spec: confidence from the in-window sample count
    (saturating), the staleness flag and the hours without data; the
    floor when the count gives no median. *)
Definition confidence_of (samples : nat) (is_stale : bool) (gapHours : Z) : Z :=
  if (samples <? minSamples cfg)%nat || (samples =? 0)%nat then confFloor cfg
  else clamp (confFloor cfg) (confCeil cfg)
         (confBase cfg
          + wCount cfg * Z.min (Z.of_nat samples) (saturation cfg)
          - (if is_stale then wStale cfg else 0)
          - wGap cfg * gapHours / windowHours cfg)%Z.

(** Modelled from the spec: the missing-data gap, the hours of the
    window no sample accounts for at one sample a day. *)
Definition gap_hours (series : PriceSeries) : Z :=
  Z.max 0 (windowHours cfg - 24 * Z.of_nat (length (window_prices series))).

(** Modelled from the spec: the Confidence Estimator on a series and
    its staleness flag. *)
Definition confidence (series : PriceSeries) (is_stale : bool) : Z :=
  confidence_of (length (window_prices series)) is_stale (gap_hours series).

(** *** Score Composer (section 4.5) *)

(** Modelled from the spec: the deal score, a weighted combination of
    discount and stability drawn toward the midpoint as confidence
    drops; the floor without a discount. *)
Definition score (discount : option Q) (stability : Q) (conf : Z) : Q :=
  match discount with
  | None => scoreFloor cfg
  | Some d =>
      (scoreMid cfg
       + (inject_Z conf / inject_Z (confCeil cfg))
         * (100 * (wDiscount cfg * d + wStability cfg * stability) - scoreMid cfg))%Q
  end.

(** Modelled from the spec: the hot score, the weighted-arithmetic
    blend of deal score and demand; the deal score without demand. *)
Definition hotScore (sc : Q) (demandScore : option Q) : Q :=
  match demandScore with
  | None => sc
  | Some dm => ((1 - wDemand cfg) * sc + wDemand cfg * dm)%Q
  end.

(** Modelled from the spec: the Score Composer's pair of outputs. *)
Definition compose (discount : option Q) (stability : Q) (conf : Z)
    (demandScore : option Q) : Q * Q :=
  let sc := score discount stability conf in
  (sc, hotScore sc demandScore).

End Engine.

(** A median of a sample: at least half of the values are at most [m]
    and at least half are at least [m]. *)
Definition at_most (m : Q) (x : Z) : bool := Qle_bool (inject_Z x) m.
Definition at_least (m : Q) (x : Z) : bool := Qle_bool m (inject_Z x).

Definition is_median (m : Q) (xs : list Z) : Prop :=
  (length xs <= 2 * length (List.filter (at_most m) xs))%nat
  /\ (length xs <= 2 * length (List.filter (at_least m) xs))%nat.

(** The constants a deployment may choose: a non-empty confidence
    range, weights that are not negative, a window of positive length. *)
Definition Config_ok (cfg : Config) : Prop :=
  (confFloor cfg <= confCeil cfg)%Z
  /\ (0 <= wCount cfg)%Z /\ (0 <= wStale cfg)%Z /\ (0 <= wGap cfg)%Z
  /\ (0 < windowHours cfg)%Z.

(** Equality of optional rationals as numbers. *)
Definition same_number (a b : option Q) : Prop :=
  match a, b with
  | Some x, Some y => (x == y)%Q
  | None, None => True
  | _, _ => False
  end.

End Core.

(** ** The Snapshot Writer (section 4.6) *)

Module Snapshot.

(** Modelled from the spec: the persistent DealRecord of section 3 with
    the generation that wrote it; the computed values travel as one
    field each. *)
Record DealRecord := {
  asin : string;
  category : string;
  priceCurrent : option Z;
  priceMedian90d : option Q;
  discountPct90d : option Q;
  confidence : Z;
  score : Q;
  hotScore : Q;
  generation : nat;
  isActive : bool;
  ingestedAt : Z;
  publishedAt : Z;
}.

Definition Key : Type := string * string.
Definition key (r : DealRecord) : Key := (asin r, category r).
Definition key_eqb (a b : Key) : bool :=
  String.eqb (fst a) (fst b) && String.eqb (snd a) (snd b).

Definition Store : Type := list DealRecord.

(** What a reader of the table is served. *)
Definition active (st : Store) : list DealRecord := List.filter isActive st.

Definition set_active (b : bool) (r : DealRecord) : DealRecord :=
  {| asin := asin r; category := category r; priceCurrent := priceCurrent r;
     priceMedian90d := priceMedian90d r; discountPct90d := discountPct90d r;
     confidence := confidence r; score := score r; hotScore := hotScore r;
     generation := generation r; isActive := b; ingestedAt := ingestedAt r;
     publishedAt := publishedAt r |}.

(** Modelled from the spec: a new row carries the cycle's generation
    and timestamp, and keeps [publishedAt] of the active row it
    supersedes if there is one. *)
Definition stamp (g : nat) (now : Z) (prior : Store) (r : DealRecord) : DealRecord :=
  {| asin := asin r; category := category r; priceCurrent := priceCurrent r;
     priceMedian90d := priceMedian90d r; discountPct90d := discountPct90d r;
     confidence := confidence r; score := score r; hotScore := hotScore r;
     generation := g; isActive := false; ingestedAt := now;
     publishedAt :=
       match List.find (fun o => key_eqb (key o) (key r)) (active prior) with
       | Some o => publishedAt o
       | None => now
       end |}.

(** Modelled from the spec: the single-row and whole-table writes a
    commit is made of. *)
Inductive Write :=
| Insert (r : DealRecord)
| Deactivate (g : nat) (k : Key)   (* rows of key k from before generation g *)
| Activate (g : nat) (k : Key)     (* rows of key k of generation g *)
| DeleteAll.

Definition apply (w : Write) (st : Store) : Store :=
  match w with
  | Insert r => (st ++ [r])%list
  | Deactivate g k =>
      List.map (fun r => if key_eqb (key r) k && negb (Nat.eqb (generation r) g)
                         then set_active false r else r) st
  | Activate g k =>
      List.map (fun r => if key_eqb (key r) k && Nat.eqb (generation r) g
                         then set_active true r else r) st
  | DeleteAll => []
  end.

(** Modelled from the spec: the writes of one cycle.  Retaining: insert
    the new rows, mark every previously active row inactive, mark the
    new rows active.  Purging: delete all prior rows, then insert and
    mark active. *)
Definition plan (purge : bool) (g : nat) (now : Z) (prior : Store)
    (fresh : list DealRecord) : list Write :=
  let rows := List.map (stamp g now prior) fresh in
  ((if purge then [DeleteAll] else [])
   ++ List.map Insert rows
   ++ (if purge then [] else List.map (fun o => Deactivate g (key o)) (active prior))
   ++ List.map (fun r => Activate g (key r)) rows)%list.

Definition apply_all (ws : list Write) (st : Store) : Store :=
  List.fold_left (fun acc w => apply w acc) ws st.

(** Modelled from the spec: the table with its open transaction;
    readers are served from [committed], the writer works on [pending]. *)
Record Db := { committed : Store; pending : option Store }.

Inductive Step := Begin | Do (w : Write) | Rollback | Commit.

Definition step (s : Step) (db : Db) : Db :=
  match s with
  | Begin => {| committed := committed db; pending := Some (committed db) |}
  | Do w => {| committed := committed db; pending := apply w <$> pending db |}
  | Rollback => {| committed := committed db; pending := None |}
  | Commit => {| committed := default (committed db) (pending db); pending := None |}
  end.

(** Modelled from the spec: the steps of a commit in which the write of
    index [k] fails when [fail_at = Some k]; index [length ws] is the
    final commit itself. *)
Definition steps (fail_at : option nat) (ws : list Write) : list Step :=
  match fail_at with
  | Some k =>
      if (k <=? length ws)%nat
      then (Begin :: List.map Do (take k ws) ++ [Rollback])%list
      else (Begin :: List.map Do ws ++ [Commit])%list
  | None => (Begin :: List.map Do ws ++ [Commit])%list
  end.

(** Every state the table goes through, the first one included. *)
Fixpoint trace (ss : list Step) (db : Db) : list Db :=
  match ss with
  | [] => [db]
  | s :: rest => db :: trace rest (step s db)
  end.

Definition final (ss : list Step) (db : Db) : Db :=
  List.fold_left (fun acc s => step s acc) ss db.

Inductive Outcome := Committed | CommitFailure.

Definition outcome_of (fail_at : option nat) (ws : list Write) : Outcome :=
  match fail_at with
  | Some k => if (k <=? length ws)%nat then CommitFailure else Committed
  | None => Committed
  end.

(** Modelled from the spec: the commit of one cycle's records. *)
Definition commit_cycle (purge : bool) (g : nat) (now : Z) (fail_at : option nat)
    (fresh : list DealRecord) (prior : Store) : Outcome * Store :=
  let ws := plan purge g now prior fresh in
  (outcome_of fail_at ws,
   committed (final (steps fail_at ws) {| committed := prior; pending := None |})).

(** Modelled from the spec: what readers are served at each moment of
    the commit. *)
Definition observations (purge : bool) (g : nat) (now : Z) (fail_at : option nat)
    (fresh : list DealRecord) (prior : Store) : list (list DealRecord) :=
  let ws := plan purge g now prior fresh in
  List.map (fun db => active (committed db))
    (trace (steps fail_at ws) {| committed := prior; pending := None |}).

End Snapshot.

(** ** Vocabulary of the statements *)

(** An evaluation during which no [null] met an arithmetic operator. *)
Definition quiet {A} (m : Js.Eff A) : Prop := Js.log m = [].

(** [P] holds of the state a script step leaves whenever it held before,
    whether the step returns or throws. *)
Definition keeps {A} (P : RunAll.State -> Prop) (m : RunAll.Script A) : Prop :=
  forall st, P st -> P (m st).2.

(** The purge switch holds [v], and so it does in the environment of
    every child process. *)
Definition switched (v : string) (st : RunAll.State) : Prop :=
  RunAll.purge_switch st = Some v
  /\ forall cmd e, (cmd, e) ∈ RunAll.spawned st -> e !! "PURGE_DEALS_ON_START" = Some v.

(** ** Inputs for running the definitions *)

(** Servers for running the client. *)
Definition server_404 : string -> Api.RequestInit -> @Api.FetchResult Rat.num :=
  fun _ _ => Api.Responded {| Api.status := 404;
                              Api.body := Some (Js.VObj [("detail", Js.VStr "Not found")]) |}.

Definition sample_deal : Js.value Rat.num :=
  Js.VObj [("asin", Js.VStr "B00TEST"); ("category", Js.VStr "toys");
           ("title", Js.VStr "Blocks"); ("price_current", Js.VNum (Some (25 # 2)));
           ("price_median_90d", Js.VNum (Some 20%Q));
           ("discount_pct_90d", Js.VNum (Some (3 # 8)));
           ("confidence", Js.VNum (Some 80%Q)); ("score", Js.VNum (Some (143 # 2)));
           ("hot_score", Js.VNull); ("demand_score", Js.VNull)].

Definition server_200 : string -> Api.RequestInit -> @Api.FetchResult Rat.num :=
  fun url _ =>
    if String.eqb url "http://127.0.0.1:8000/api/deal/B00TEST"
    then Api.Responded {| Api.status := 200; Api.body := Some sample_deal |}
    else Api.Responded {| Api.status := 200;
                          Api.body := Some (Js.VObj [("items", Js.VArr [sample_deal])]) |}.

(** Two machines for running the script. *)
Definition host_without_venv : RunAll.Host :=
  {| RunAll.PSScriptRoot := "C:\deals\backend";
     RunAll.python_exists := false;
     RunAll.pg_accepts := fun _ => true;
     RunAll.start_error := fun _ => None |}.

Definition host_ready : RunAll.Host :=
  {| RunAll.PSScriptRoot := "C:\deals\backend";
     RunAll.python_exists := true;
     RunAll.pg_accepts := fun i => (3 <=? i)%nat;
     RunAll.start_error := fun _ => None |}.

Definition purge_by_default : RunAll.Params :=
  {| RunAll.KeepHistory := false; RunAll.NoOpen := true |}.

Definition keep_history : RunAll.Params :=
  {| RunAll.KeepHistory := true; RunAll.NoOpen := true |}.

(** The scenario of the design document: three samples at 90, 45 and 1
    day before now, prices 100, 80 and 60; hours count from the first. *)
Definition scenario : Core.PriceSeries := [(0, 100); (1080, 80); (2136, 60)]%Z.
Definition scenario_now : Z := 2160.

(** A table with two active rows and a cycle that keeps one product,
    drops one and brings a new one. *)
Definition row (a c : string) (sc : Q) (g : nat) (act : bool) (t : Z) : Snapshot.DealRecord :=
  {| Snapshot.asin := a; Snapshot.category := c;
     Snapshot.priceCurrent := Some 6000%Z; Snapshot.priceMedian90d := Some 80%Q;
     Snapshot.discountPct90d := Some (1 # 4); Snapshot.confidence := 18;
     Snapshot.score := sc; Snapshot.hotScore := sc;
     Snapshot.generation := g; Snapshot.isActive := act;
     Snapshot.ingestedAt := t; Snapshot.publishedAt := t |}.

Definition prior_store : Snapshot.Store :=
  [row "B001" "toys" 40 1 true 100; row "B002" "home" 55 1 true 100].

Definition fresh_records : list Snapshot.DealRecord :=
  [row "B001" "toys" 45 0 false 0; row "B003" "diy" 70 0 false 0].

(** ** Vocabulary of the further properties *)

(** The requests an async function issues against a server, in order. *)
Fixpoint requests {num A} (server : string -> Api.RequestInit -> @Api.FetchResult num)
    (m : @Api.Async num A) : list (string * Api.RequestInit) :=
  match m with
  | Api.Done _ | Api.Fail _ => []
  | Api.Fetch url init k => (url, init) :: requests server (k (server url init))
  end.

(** An evaluation that returns a value. *)
Definition returns {A} (m : Js.Eff A) : Prop := exists a, Js.outcome m = inr a.

(** The property [name] of a record is a number, [null], [undefined] or
    absent. *)
Definition number_or_missing {num} (fields : list (string * Js.value num))
    (name : string) : bool :=
  match Js.assoc name fields with
  | None | Some Js.VNull | Some Js.VUndefined | Some (Js.VNum _) => true
  | Some _ => false
  end.

(** A value that is no array and no object: [undefined], [null], a
    boolean, a number or a string. *)
Definition scalar {num} (v : Js.value num) : bool :=
  match v with
  | Js.VArr _ | Js.VObj _ => false
  | _ => true
  end.

(** A record all of whose properties are scalars. *)
Definition flat {num} (fields : list (string * Js.value num)) : bool :=
  forallb (fun kv => scalar kv.2) fields.

(** The property [name] of a record is [null], [undefined] or absent. *)
Definition missing {num} (fields : list (string * Js.value num)) (name : string) : bool :=
  Js.nullish (default Js.VUndefined (Js.assoc name fields)).

(** The psql probe of the wait loop, as the script starts it. *)
Definition probe_cmd : string :=
  "docker exec -i " ++ RunAll.container ++ " psql -U deals -d deals -c select 1;".

(** [n] probes started with the environment [e]. *)
Definition probes (n : nat) (e : gmap string string) : list (string * gmap string string) :=
  replicate n (probe_cmd, e).

(** Commands started with the environment [e]. *)
Definition with_env (e : gmap string string) (cmds : list string) :
    list (string * gmap string string) :=
  List.map (fun c => (c, e)) cmds.

(** Postgres accepts a connection at attempt [k] for the first time. *)
Definition first_ready (host : RunAll.Host) (k : nat) : Prop :=
  (1 <= k <= RunAll.maxAttempts)%nat
  /\ RunAll.pg_accepts host k = true
  /\ forall j, (1 <= j < k)%nat -> RunAll.pg_accepts host j = false.

(** Postgres accepts no connection in any of the attempts. *)
Definition never_ready (host : RunAll.Host) : Prop :=
  forall j, (1 <= j <= RunAll.maxAttempts)%nat -> RunAll.pg_accepts host j = false.

(** The commands of the script after Postgres is ready, in order. *)
Definition pipeline_cmds (host : RunAll.Host) (p : RunAll.Params) : list string :=
  [RunAll.ingestion_cmd host;
   RunAll.python host ++ " " ++ RunAll.Join_Path (RunAll.backend host) "make_top_deals_html.py";
   "docker exec -it " ++ RunAll.container ++ " psql -U deals -d deals -c <summary>";
   "docker exec -it " ++ RunAll.container ++ " psql -U deals -d deals -c <active by category>"]
  ++ (if RunAll.NoOpen p then []
      else ["Start-Process " ++ RunAll.Join_Path (RunAll.backend host) "top_deals.html"]).

Definition compose_cmd (host : RunAll.Host) : string :=
  "docker compose -f " ++ RunAll.composeFile host ++ " up -d".

(** Each of the commands can be started on the machine. *)
Definition can_start (host : RunAll.Host) (cmds : list string) : Prop :=
  List.Forall (fun c => RunAll.start_error host c = None) cmds.

(** Inputs for running the further properties. *)
Definition host_without_docker : RunAll.Host :=
  {| RunAll.PSScriptRoot := "C:\deals\backend";
     RunAll.python_exists := true;
     RunAll.pg_accepts := fun _ => false;
     RunAll.start_error := fun c =>
       if String.prefix "docker " c
       then Some "The term 'docker' is not recognized as the name of a cmdlet, function, script file, or operable program."
       else None |}.

Definition host_without_postgres : RunAll.Host :=
  {| RunAll.PSScriptRoot := "C:\deals\backend";
     RunAll.python_exists := true;
     RunAll.pg_accepts := fun _ => false;
     RunAll.start_error := fun _ => None |}.

Definition payload_fields : list (string * Js.value Rat.num) :=
  [("items", Js.VArr [sample_deal; sample_deal])].

Definition payload_with_null_item : list (string * Js.value Rat.num) :=
  [("items", Js.VArr [sample_deal; Js.VNull])].

Definition record_without_discount : list (string * Js.value Rat.num) :=
  [("asin", Js.VStr "B00TEST"); ("price_current", Js.VNum (Some (25 # 2)));
   ("discount_pct_90d", Js.VNull); ("demand_score", Js.VNum (Some 61%Q));
   ("sales_rank_current", Js.VNum (Some 0%Q)); ("review_count", Js.VNum (Some 12%Q))].

(** * Properties *)

(** ** Expression evaluation never converts [null] to a number *)

Section EffFacts.
Context {num : Type} `{Js.JsNum num} `{Js.JsText}.
Import Js.

Local Abbreviation value := (Js.value num).

Lemma quiet_mret {A} (a : A) : quiet (mret a).
Proof. reflexivity. Qed.

Lemma quiet_throw {A} (e : exn) : quiet (@throw A e).
Proof. reflexivity. Qed.

Lemma quiet_bind {A B} (m : Eff A) (f : A -> Eff B) :
  quiet m -> (forall a, outcome m = inr a -> quiet (f a)) -> quiet (bind m f).
Proof.
  unfold quiet, bind. intros Hm Hf.
  destruct (outcome m) as [e | a] eqn:E; simpl.
  - exact Hm.
  - rewrite Hm, (Hf a eq_refl). reflexivity.
Qed.

Lemma quiet_mbind {A B} (m : Eff A) (f : A -> Eff B) :
  quiet m -> (forall a, outcome m = inr a -> quiet (f a)) -> quiet (m ≫= f).
Proof. exact (quiet_bind m f). Qed.

Lemma outcome_mbind {A B} (m : Eff A) (f : A -> Eff B) (b : B) :
  outcome (m ≫= f) = inr b ->
  exists a, outcome m = inr a /\ outcome (f a) = inr b.
Proof.
  unfold mbind, Eff_bind, bind.
  destruct (outcome m) as [e | a] eqn:E; simpl; intros Hb.
  - discriminate.
  - exists a. split; [reflexivity | exact Hb].
Qed.

Lemma quiet_get (o : value) (name : string) : quiet (get o name).
Proof. destruct o; reflexivity. Qed.

Lemma quiet_toFixed (a : value) (digits : nat) : quiet (toFixed a digits).
Proof. destruct a; reflexivity. Qed.

(** ToString throws or returns, and converts no [null] to a number on
    the way, whatever the arrays and objects nest. *)
Lemma quiet_toString (v : value) : quiet (toString v).
Proof.
  revert v. fix IH 1. intros [ | | b | n | s | items | fields]; try reflexivity.
  - simpl. revert items. fix IHl 1. intros [| x rest]; [reflexivity |].
    pose proof (IH x) as Hx. pose proof (IHl rest) as Hr.
    apply quiet_bind.
    + destruct x; first [reflexivity | exact Hx].
    + intros sx _. destruct rest; [reflexivity |].
      apply quiet_bind; [exact Hr | intros; reflexivity].
  - simpl. destruct (assoc "toString" fields); reflexivity.
Qed.

Lemma quiet_toNumber (v : value) : is_null v = false -> quiet (toNumber v).
Proof.
  destruct v; intros Hv; try reflexivity; try discriminate;
    (apply quiet_bind; [apply quiet_toString | intros; reflexivity]).
Qed.

Lemma quiet_Math_round (v : value) : is_null v = false -> quiet (Math_round v).
Proof.
  intros Hv. apply quiet_bind; [apply quiet_toNumber, Hv | intros; reflexivity].
Qed.

Lemma quiet_mul (a b : value) :
  is_null a = false -> is_null b = false -> quiet (mul a b).
Proof.
  intros Ha Hb. apply quiet_bind; [apply quiet_toNumber, Ha |]. intros x _.
  apply quiet_bind; [apply quiet_toNumber, Hb | intros; reflexivity].
Qed.

Lemma outcome_bind {A B} (m : Eff A) (f : A -> Eff B) (b : B) :
  outcome (bind m f) = inr b ->
  exists a, outcome m = inr a /\ outcome (f a) = inr b.
Proof.
  unfold bind.
  destruct (outcome m) as [e | a] eqn:E; simpl; intros Hb.
  - discriminate.
  - exists a. split; [reflexivity | exact Hb].
Qed.

Lemma outcome_mul (a b v : value) :
  outcome (mul a b) = inr v -> is_null v = false.
Proof.
  intros Hv. apply outcome_bind in Hv as (x & _ & Hv).
  apply outcome_bind in Hv as (y & _ & Hv).
  injection Hv as <-. reflexivity.
Qed.

Lemma quiet_Number (a : value) : quiet (Number a).
Proof.
  destruct a; try reflexivity;
    (apply quiet_bind; [apply quiet_toNumber; reflexivity | intros; reflexivity]).
Qed.

Lemma outcome_Math_round (a v : value) :
  outcome (Math_round a) = inr v -> is_null v = false.
Proof.
  intros Hv. apply outcome_bind in Hv as (x & _ & Hv).
  injection Hv as <-. reflexivity.
Qed.

Lemma is_null_VNum (n : num) : is_null (VNum n : value) = false.
Proof. reflexivity. Qed.

Lemma is_null_coalesce (a b : value) :
  is_null b = false -> is_null (coalesce a b) = false.
Proof. intros Hb. destruct a; simpl; first [exact Hb | reflexivity]. Qed.

Lemma present_not_null (v : value) : Pages.present v = true -> is_null v = false.
Proof. destruct v; simpl; intros Hv; try reflexivity. discriminate. Qed.

Lemma truthy_not_null (v : value) : truthy v = true -> is_null v = false.
Proof. destruct v; simpl; intros Hv; try reflexivity. discriminate. Qed.

Lemma quiet_rounded (v : value) : is_null v = false -> quiet (Pages.rounded v).
Proof.
  intros Hv. unfold Pages.rounded. apply quiet_mbind.
  - apply quiet_Math_round, Hv.
  - intros r _. apply quiet_toString.
Qed.

Lemma quiet_pct (x : value) : quiet (Pages.pct x).
Proof.
  unfold Pages.pct. destruct (is_null x || is_undefined x) eqn:E.
  - apply quiet_mret.
  - apply orb_false_iff in E as [Hn _].
    apply quiet_mbind; [apply quiet_mul; [exact Hn | reflexivity] |].
    intros p Hp. apply quiet_mbind.
    + apply quiet_Math_round. apply (outcome_mul _ _ _ Hp).
    + intros r _. apply quiet_mbind; [apply quiet_toString |].
      intros t _. apply quiet_mret.
Qed.

Lemma quiet_discount_times_100 (x : value) :
  quiet (mul (coalesce x (VNum n0)) (VNum n100)).
Proof. apply quiet_mul; [apply is_null_coalesce |]; reflexivity. Qed.

Lemma quiet_rounded_product (a b p : value) :
  outcome (mul a b) = inr p -> quiet (Pages.rounded p).
Proof. intros Hp. apply quiet_rounded, (outcome_mul _ _ _ Hp). Qed.

Lemma quiet_mapM {A B} (f : A -> Eff B) (l : list A) :
  (forall a, quiet (f a)) -> quiet (mapM f l).
Proof.
  intros Hf. induction l as [| a l IH]; simpl.
  - apply quiet_mret.
  - apply quiet_mbind; [apply Hf |]. intros b _.
    apply quiet_mbind; [exact IH |]. intros bs _. apply quiet_mret.
Qed.

Lemma quiet_items_of (data : value) : quiet (Pages.items_of data).
Proof.
  unfold Pages.items_of. apply quiet_mbind; [apply quiet_get |].
  intros v _. destruct (truthy v); [destruct v |]; first [apply quiet_mret | apply quiet_throw].
Qed.

End EffFacts.

Create HintDb quiet.
#[local] Hint Resolve quiet_mret quiet_throw quiet_get quiet_toFixed quiet_pct
  quiet_toString quiet_Number quiet_items_of quiet_discount_times_100 quiet_rounded_product : quiet.
#[local] Hint Resolve is_null_VNum is_null_coalesce present_not_null truthy_not_null : quiet.

(** One step through a sequence of statements. *)
Ltac quiet_step :=
  first
    [ solve [ eauto with quiet ]
    | apply quiet_rounded; solve [ eauto with quiet ]
    | match goal with
      | |- quiet (if ?c then _ else _) => destruct c eqn:?
      end
    | match goal with
      | |- quiet (_ ≫= _) => apply quiet_mbind; [ | intros ? ? ]
      end ].

Section PageFacts.
Context {num : Type} `{Js.JsNum num} `{Js.JsText}.
Import Js.

Local Abbreviation value := (Js.value num).

Lemma quiet_Page_card (d : value) : quiet (Pages.Page_card d).
Proof. unfold Pages.Page_card. repeat quiet_step. Qed.

Lemma quiet_DealPage_demand (d v : value) :
  outcome (get d "demand_score") = inr v -> Pages.present v = true ->
  quiet (Pages.DealPage_demand d).
Proof.
  intros Hget Hv. unfold Pages.DealPage_demand.
  apply quiet_mbind; [apply quiet_get |]. intros v' Hv'.
  assert (v' = v) as -> by congruence.
  repeat quiet_step.
Qed.

Lemma quiet_DealPage_view (d : value) : quiet (Pages.DealPage_view d).
Proof.
  unfold Pages.DealPage_view. repeat quiet_step.
  eapply quiet_DealPage_demand; eassumption.
Qed.

Lemma quiet_CategoryPage_card (d : value) : quiet (Pages.CategoryPage_card d).
Proof. unfold Pages.CategoryPage_card. repeat quiet_step. Qed.

End PageFacts.

(** ** The API client *)

Section ApiFacts.
Context {num : Type}.
Import Js Api.

Local Abbreviation value := (Js.value num).
Local Abbreviation Async := (@Api.Async num).

Lemma run_abind {A B} (server : string -> RequestInit -> @FetchResult num)
    (m : Async A) (f : A -> Async B) :
  run server (abind m f) =
  match run server m with
  | inl e => inl e
  | inr a => run server (f a)
  end.
Proof. induction m as [a | e | url init k IH]; simpl; auto. Qed.

Lemma run_fetch (server : string -> RequestInit -> @FetchResult num) url init :
  run server (fetch url init) =
  match server url init with
  | NetworkError => inl (TypeError "fetch failed")
  | Responded res => inr res
  end.
Proof. simpl. destruct (server url init); reflexivity. Qed.

Lemma run_json (server : string -> RequestInit -> @FetchResult num) (res : @Response num) (d : value) :
  run server (json res) = inr d -> body res = Some d.
Proof. unfold json. destruct (body res); simpl; congruence. Qed.

Lemma sp_get_delete_ne name other ps :
  name <> other -> sp_get other (sp_delete name ps) = sp_get other ps.
Proof.
  intros Hne. induction ps as [| [k w] rest IH]; simpl; [reflexivity |].
  destruct (String.eqb k name) eqn:Ek; simpl.
  - apply String.eqb_eq in Ek. subst k.
    destruct (String.eqb name other) eqn:Eo; [| exact IH].
    apply String.eqb_eq in Eo. contradiction.
  - rewrite IH. reflexivity.
Qed.

Lemma sp_get_set_eq name v ps : sp_get name (sp_set name v ps) = Some v.
Proof.
  induction ps as [| [k w] rest IH]; simpl.
  - rewrite String.eqb_refl. reflexivity.
  - destruct (String.eqb k name) eqn:Ek; simpl.
    + rewrite String.eqb_refl. reflexivity.
    + rewrite Ek. exact IH.
Qed.

Lemma sp_get_set_ne name other v ps :
  name <> other -> sp_get other (sp_set name v ps) = sp_get other ps.
Proof.
  intros Hne. induction ps as [| [k w] rest IH]; simpl.
  - destruct (String.eqb name other) eqn:Eo; [| reflexivity].
    apply String.eqb_eq in Eo. contradiction.
  - destruct (String.eqb k name) eqn:Ek; simpl.
    + apply String.eqb_eq in Ek. subst k.
      destruct (String.eqb name other) eqn:Eo.
      * apply String.eqb_eq in Eo. contradiction.
      * apply sp_get_delete_ne, Hne.
    + destruct (String.eqb k other); [reflexivity | exact IH].
Qed.

(** The query of [fetchDeals], name by name, over the query that the
    parsed address brought along. *)
Lemma fetchDeals_url_limit url category sort :
  sp_get "limit" (searchParams (fetchDeals_url url category sort)) = Some "100".
Proof.
  unfold fetchDeals_url.
  destruct category as [c |]; [destruct (String.eqb c "") |]; simpl;
    rewrite ?(sp_get_set_ne "category" "limit"), ?(sp_get_set_ne "sort" "limit")
      by discriminate;
    apply sp_get_set_eq.
Qed.

Lemma fetchDeals_url_sort url category sort :
  sp_get "sort" (searchParams (fetchDeals_url url category sort))
  = Some (Sort_str (default hot sort)).
Proof.
  unfold fetchDeals_url.
  destruct category as [c |]; [destruct (String.eqb c "") |]; simpl;
    rewrite ?(sp_get_set_ne "category" "sort") by discriminate;
    apply sp_get_set_eq.
Qed.

Lemma fetchDeals_url_category url category sort :
  sp_get "category" (searchParams (fetchDeals_url url category sort))
  = match category with
    | Some c => if String.eqb c "" then sp_get "category" (searchParams url) else Some c
    | None => sp_get "category" (searchParams url)
    end.
Proof.
  unfold fetchDeals_url.
  destruct category as [c |]; [destruct (String.eqb c "") |]; simpl;
    rewrite ?sp_get_set_eq; try reflexivity;
    rewrite (sp_get_set_ne "sort" "category"), (sp_get_set_ne "limit" "category")
      by discriminate;
    reflexivity.
Qed.

Lemma fetchDeals_url_other url category sort name :
  name <> "limit" -> name <> "sort" -> name <> "category" ->
  sp_get name (searchParams (fetchDeals_url url category sort))
  = sp_get name (searchParams url).
Proof.
  intros Hl Hs Hc. unfold fetchDeals_url.
  destruct category as [c |]; [destruct (String.eqb c "") |]; simpl;
    rewrite ?(sp_get_set_ne "category" name), ?(sp_get_set_ne "sort" name),
      ?(sp_get_set_ne "limit" name) by congruence;
    reflexivity.
Qed.

Lemma fetchDeals_url_location url category sort :
  location (fetchDeals_url url category sort) = location url.
Proof.
  unfold fetchDeals_url. destruct category as [c |]; [| reflexivity].
  destruct (String.eqb c ""); reflexivity.
Qed.

Lemma Sort_str_cases (s : Sort) : Sort_str s = "hot" \/ Sort_str s = "deal".
Proof. destruct s; [left | right]; reflexivity. Qed.

(** [fetchDeals] past [new URL]: the one call of [fetch] and what
    follows it. *)
Lemma fetchDeals_parsed `{UrlApi} base category sort url :
  new_URL (API_BASE base ++ "/api/deals") = inr url ->
  @fetchDeals num _ base category sort
  = abind (fetch (URL_toString (fetchDeals_url url category sort)) {| cache := "no-store" |})
      (fun res => if negb (ok res) then Fail (Error "Failed to load deals") else json res).
Proof. intros Hurl. unfold fetchDeals. rewrite Hurl. reflexivity. Qed.

Lemma fetchDeals_rejected `{UrlApi} base category sort msg :
  new_URL (API_BASE base ++ "/api/deals") = inl msg ->
  @fetchDeals num _ base category sort = Fail (TypeError msg).
Proof. intros Hurl. unfold fetchDeals. rewrite Hurl. reflexivity. Qed.

End ApiFacts.

Section ClientClaims.
Context {num : Type}.
Import Js Api.

Local Abbreviation value := (Js.value num).

(** C7, amended.  Whatever the platform's URL parser and serialiser
    are and whatever [NEXT_PUBLIC_API_BASE] holds: when [new URL]
    rejects the address [API_BASE/api/deals], [fetchDeals] throws its
    TypeError and requests nothing; when it accepts it, [fetchDeals]
    calls [fetch] with [cache: "no-store"] on the serialised URL whose
    address is the parsed one and whose query holds [limit=100], a
    [sort] that is "hot" or "deal" and is "hot" when the argument is
    left out, and the category argument as [category] exactly when that
    argument is a non-empty string: an empty string, like a missing
    argument, leaves the query of the base as it was for that name, so
    without a filter when the base has none; and no other name of the
    query is touched. *)
Theorem fetchDeals_request `{UrlApi} (base : option string)
    (category : option string) (sort : option Sort) :
  match new_URL (API_BASE base ++ "/api/deals") with
  | inl msg => @fetchDeals num _ base category sort = Fail (TypeError msg)
  | inr url =>
      let u := fetchDeals_url url category sort in
      (exists k, @fetchDeals num _ base category sort
                 = Fetch (URL_toString u) {| cache := "no-store" |} k)
      /\ location u = location url
      /\ sp_get "limit" (searchParams u) = Some "100"
      /\ sp_get "sort" (searchParams u) = Some (Sort_str (default hot sort))
      /\ (Sort_str (default hot sort) = "hot" \/ Sort_str (default hot sort) = "deal")
      /\ sp_get "sort" (searchParams (fetchDeals_url url category None)) = Some "hot"
      /\ sp_get "category" (searchParams u)
         = match category with
           | Some c => if String.eqb c "" then sp_get "category" (searchParams url) else Some c
           | None => sp_get "category" (searchParams url)
           end
      /\ (searchParams url = [] ->
            (is_Some (sp_get "category" (searchParams u))
             <-> exists c, category = Some c /\ c <> ""))
      /\ (forall name, name <> "limit" -> name <> "sort" -> name <> "category" ->
            sp_get name (searchParams u) = sp_get name (searchParams url))
  end.
Proof.
  destruct (new_URL (API_BASE base ++ "/api/deals")) as [msg | url] eqn:Hurl.
  - apply fetchDeals_rejected, Hurl.
  - intros u. subst u.
    split; [| split; [| split; [| split; [| split; [| split; [| split; [| split]]]]]]].
    + rewrite (fetchDeals_parsed _ _ _ _ Hurl). unfold fetch. simpl.
      eexists. reflexivity.
    + apply fetchDeals_url_location.
    + apply fetchDeals_url_limit.
    + apply fetchDeals_url_sort.
    + apply Sort_str_cases.
    + apply fetchDeals_url_sort.
    + apply fetchDeals_url_category.
    + intros Hquery. rewrite fetchDeals_url_category, Hquery. simpl.
      destruct category as [c |]; [destruct (String.eqb c "") eqn:E |]; split.
      * intros [x Hx]. discriminate.
      * intros (c' & [= <-] & Hc). apply String.eqb_neq in Hc. congruence.
      * intros _. exists c. split; [reflexivity |]. apply String.eqb_neq, E.
      * intros _. eexists. reflexivity.
      * intros [x Hx]. discriminate.
      * intros (c' & [=] & _).
    + intros name. apply fetchDeals_url_other.
Qed.

(** C8.  When the detail endpoint answers with a status outside
    200..299 (404 when no active record has that asin), [fetchDeal]
    throws [Error "Failed to load deal"]; whenever it returns a value,
    the response was ok and the value is the parsed body; and an ok
    response with a JSON body is returned parsed. *)
Theorem fetchDeal_throws_unless_ok (base : option string) (asin : string)
    (server : string -> RequestInit -> @FetchResult num) :
  let url := API_BASE base ++ "/api/deal/" ++ asin in
  let init := {| cache := "no-store" |} in
  (forall res, server url init = Responded res -> ok res = false ->
     run server (fetchDeal base asin) = inl (Error "Failed to load deal"))
  /\ (forall d, run server (fetchDeal base asin) = inr d ->
        exists res, server url init = Responded res /\ ok res = true /\ body res = Some d)
  /\ (forall res d, server url init = Responded res -> ok res = true ->
        body res = Some d -> run server (fetchDeal base asin) = inr d).
Proof.
  intros url init. unfold fetchDeal. fold url. fold init.
  repeat split.
  - intros res Hres Hok. rewrite run_abind, run_fetch, Hres, Hok. reflexivity.
  - intros d. rewrite run_abind, run_fetch.
    destruct (server url init) as [| res]; [discriminate |].
    destruct (ok res) eqn:Hok; simpl; [| discriminate].
    intros Hd. exists res. split; [reflexivity |]. split; [exact Hok |].
    eapply run_json, Hd.
  - intros res d Hres Hok Hbody.
    rewrite run_abind, run_fetch, Hres, Hok. simpl. unfold json.
    rewrite Hbody. reflexivity.
Qed.

End ClientClaims.

(** An empty category argument is an argument, and it adds no filter:
    the statement of C7 with "exactly when a category argument is
    supplied" does not hold, here at the default base, whose address
    has no query. *)
Lemma fetchDeals_category_not_whenever_supplied :
  ~ (forall (category : option string) (sort : option Api.Sort),
       is_Some category <->
       is_Some (Api.sp_get "category"
                  (Api.searchParams
                     (Api.fetchDeals_url
                        {| Api.location := "http://127.0.0.1:8000/api/deals";
                           Api.searchParams := [] |} category sort)))).
Proof.
  intros Hall. destruct (Hall (Some "") None) as [Hsupplied _].
  destruct (Hsupplied (mk_is_Some _ _ eq_refl)) as [c Hc]. discriminate Hc.
Qed.

Lemma fetchDeals_request_witness :
  (exists k, @Api.fetchDeals Rat.num _ None (Some "toys") None
             = Api.Fetch "http://127.0.0.1:8000/api/deals?limit=100&sort=hot&category=toys"
                 {| Api.cache := "no-store" |} k)
  /\ @Api.fetchDeals Rat.num _ (Some "127.0.0.1:8000") None None
     = Api.Fail (Js.TypeError "Invalid URL").
Proof.
  split.
  - destruct (fetchDeals_request (num := Rat.num) None (Some "toys") None) as [Hfetch _].
    exact Hfetch.
  - exact (fetchDeals_request (num := Rat.num) (Some "127.0.0.1:8000") None None).
Defined.

Lemma fetchDeal_throws_unless_ok_witness :
  Api.run server_404 (Api.fetchDeal None "B00NONE") = inl (Js.Error "Failed to load deal")
  /\ Api.run server_200 (Api.fetchDeal None "B00TEST") = inr sample_deal
  /\ exists res, server_200 "http://127.0.0.1:8000/api/deal/B00TEST" {| Api.cache := "no-store" |}
                 = Api.Responded res /\ Api.ok res = true /\ Api.body res = Some sample_deal.
Proof.
  split; [| split].
  - destruct (fetchDeal_throws_unless_ok None "B00NONE" server_404) as (Hthrow & _ & _).
    eapply Hthrow; reflexivity.
  - destruct (fetchDeal_throws_unless_ok None "B00TEST" server_200) as (_ & _ & Hret).
    eapply Hret; reflexivity.
  - destruct (fetchDeal_throws_unless_ok None "B00TEST" server_200) as (_ & Honly & _).
    apply Honly. reflexivity.
Defined.

(** ** The pages *)

Section PageClaims.
Context {num : Type} `{Js.JsNum num} `{Js.JsText} `{Api.UrlApi}.
Import Js Api Pages.

Local Abbreviation value := (Js.value num).

Lemma run_lift {A} (server : string -> RequestInit -> @FetchResult num) (m : Eff A) :
  run server (lift m) = outcome m.
Proof. unfold lift. destruct (outcome m); reflexivity. Qed.

Lemma outcome_mret {A} (a b : A) : outcome (mret a) = inr b -> a = b.
Proof. simpl. congruence. Qed.

(** What [Page_view] puts around the cards depends on [sort] alone. *)
Lemma Page_view_frame (sort : Sort) (data : value) (view : TopView) :
  outcome (Page_view sort data) = inr view ->
  tv_note view =
    (if Sort_eqb sort hot
     then "Sorted by Hot Score (deal quality + demand)."
     else "Sorted by Deal Score (discount strength + price stability).")
  /\ tv_weight_hot view = (if Sort_eqb sort hot then 700 else 400)
  /\ tv_weight_deal view = (if Sort_eqb sort deal then 700 else 400).
Proof.
  unfold Page_view. intros Hview.
  apply outcome_mbind in Hview as (items & _ & Hview).
  apply outcome_mbind in Hview as (cards & _ & Hview).
  apply outcome_mret in Hview. subst view. simpl. auto.
Qed.

Lemma Page_sort_deal (searchParams : option (option string)) :
  Page_sort searchParams = deal <-> searchParams = Some (Some "deal").
Proof.
  unfold Page_sort. destruct searchParams as [[s |] |]; try (split; discriminate).
  destruct (String.eqb s "deal") eqn:E.
  - apply String.eqb_eq in E. subst s. split; reflexivity.
  - apply String.eqb_neq in E. split; [discriminate |]. intros [= ->]. contradiction.
Qed.

(** C10.  Unless the [sort] query parameter of the top page is exactly
    "deal", the page selects "hot": the request it makes of the list
    endpoint carries [sort=hot], and what it shows has the Hot Score
    note and the "Most wanted" link in bold, also when the parameter or
    all parameters are absent; with exactly "deal" the request carries
    [sort=deal] and the page has the Deal Score note and "Best deal" in
    bold.  The request is the first thing the page does once [new URL]
    has accepted the address of the endpoint; where the platform
    rejects that address the page throws with no request at all. *)
Theorem Page_sort_only_deal_selects_deal
    (base : option string) (searchParams : option (option string)) :
  let requested sort :=
    match new_URL (API_BASE base ++ "/api/deals") with
    | inr url =>
        (exists k, Page base searchParams
                   = Fetch (URL_toString (fetchDeals_url url None (Some sort)))
                       {| cache := "no-store" |} k)
        /\ sp_get "sort" (Api.searchParams (fetchDeals_url url None (Some sort)))
           = Some (Sort_str sort)
    | inl msg => Page base searchParams = Fail (TypeError msg)
    end in
  (searchParams <> Some (Some "deal") ->
     Page_sort searchParams = hot /\ requested hot
     /\ forall server view, run server (Page base searchParams) = inr view ->
          tv_note view = "Sorted by Hot Score (deal quality + demand)."
          /\ tv_weight_hot view = 700 /\ tv_weight_deal view = 400)
  /\ (searchParams = Some (Some "deal") ->
     Page_sort searchParams = deal /\ requested deal
     /\ forall server view, run server (Page base searchParams) = inr view ->
          tv_note view = "Sorted by Deal Score (discount strength + price stability)."
          /\ tv_weight_hot view = 400 /\ tv_weight_deal view = 700).
Proof.
  intros requested.
  assert (Hreq : requested (Page_sort searchParams)).
  { unfold requested.
    destruct (new_URL (API_BASE base ++ "/api/deals")) as [msg | url] eqn:Hurl.
    - unfold Page, mbind, Async_bind.
      rewrite (fetchDeals_rejected _ _ _ _ Hurl). reflexivity.
    - split.
      + unfold Page, mbind, Async_bind.
        rewrite (fetchDeals_parsed _ _ _ _ Hurl). unfold fetch. simpl.
        eexists. reflexivity.
      + apply (fetchDeals_url_sort url None (Some (Page_sort searchParams))). }
  assert (Hframe : forall server view,
             run server (Page base searchParams) = inr view ->
             outcome (Page_view (Page_sort searchParams)
                        (match run server (fetchDeals base None
                                             (Some (Page_sort searchParams))) with
                         | inr data => data
                         | inl _ => VNull
                         end)) = inr view).
  { intros server view. unfold Page, mbind, Async_bind.
    rewrite run_abind.
    destruct (run server (fetchDeals base None (Some (Page_sort searchParams))))
      as [e | data]; [discriminate |].
    rewrite run_lift. auto. }
  split; intros Hsp.
  - assert (Hs : Page_sort searchParams = hot).
    { destruct (Page_sort searchParams) eqn:E; [reflexivity |].
      apply Page_sort_deal in E. contradiction. }
    rewrite Hs in Hreq, Hframe. split; [exact Hs |]. split; [exact Hreq |].
    intros server view Hrun. apply Hframe, Page_view_frame in Hrun. exact Hrun.
  - assert (Hs : Page_sort searchParams = deal) by (apply Page_sort_deal, Hsp).
    rewrite Hs in Hreq, Hframe. split; [exact Hs |]. split; [exact Hreq |].
    intros server view Hrun. apply Hframe, Page_view_frame in Hrun. exact Hrun.
Qed.

(** C9.  On every record and every payload, whatever fields are null or
    absent, no stage of the three pages lets a [null] reach an
    arithmetic operator, where the language would turn it into 0
    unasked: each optional field goes through [??] with a written
    default, through a test for [null] and [undefined], or through a
    truthiness test before [Math.round], [*] or [toFixed] sees it; and
    [pct] prints a null or absent discount as "-". *)
Theorem pages_never_coerce_null_implicitly (d data : value) (sort : Sort) (slug : string) :
  log (Page_card d) = []
  /\ log (DealPage_view d) = []
  /\ log (CategoryPage_card d) = []
  /\ log (Page_view sort data) = []
  /\ log (CategoryPage_view slug data) = []
  /\ pct (VNull : value) = mret "-"
  /\ pct (VUndefined : value) = mret "-".
Proof.
  repeat split.
  - apply quiet_Page_card.
  - apply quiet_DealPage_view.
  - apply quiet_CategoryPage_card.
  - unfold Page_view. apply quiet_mbind; [apply quiet_items_of |]. intros items _.
    apply quiet_mbind; [apply quiet_mapM, quiet_Page_card |]. intros cards _.
    apply quiet_mret.
  - unfold CategoryPage_view. apply quiet_mbind; [apply quiet_items_of |]. intros items _.
    apply quiet_mbind; [apply quiet_mapM, quiet_CategoryPage_card |]. intros cards _.
    apply quiet_mret.
Qed.

End PageClaims.

(** The log does record an unguarded use: [Math.round(null)] is 0 by
    implicit conversion. *)
Example unguarded_round_is_logged :
  Js.Math_round (Js.VNull : Js.value Rat.num)
  = Js.mkEff [Js.NullToZero] (inr (Js.VNum (Some 0%Q))).
Proof. reflexivity. Qed.

(** An object with a ["toString"] key of its own, as a JSON payload can
    hold one, has no string: the card that prints it throws. *)
Example own_toString_key_throws :
  let bad := Js.VObj [("toString", Js.VNum (Some 0%Q))] : Js.value Rat.num in
  Js.outcome (Pages.pct bad)
  = inl (Js.TypeError "Cannot convert object to primitive value")
  /\ Js.outcome (Pages.Page_card (Js.VObj [("asin", bad)]))
     = inl (Js.TypeError "Cannot convert object to primitive value")
  /\ Js.outcome (Js.toString (Js.VArr [Js.VNull; Js.VStr "a"; Js.VObj []] : Js.value Rat.num))
     = inr ",a,[object Object]".
Proof. vm_compute. repeat split. Qed.

(** The written default of the detail and category pages is 0: a null
    discount is printed like a discount of zero there, and as "-" on the
    top page. *)
Example null_discount_rendering :
  let d := Js.VObj [("discount_pct_90d", Js.VNull)] : Js.value Rat.num in
  let z := Js.VObj [("discount_pct_90d", Js.VNum (Some 0%Q))] : Js.value Rat.num in
  Pages.dv_drop <$> Js.returned (Pages.DealPage_view d) = Some "0%"
  /\ Pages.dv_drop <$> Js.returned (Pages.DealPage_view z) = Some "0%"
  /\ Pages.cc_drop <$> Js.returned (Pages.CategoryPage_card d) = Some "0%"
  /\ Pages.tc_drop <$> Js.returned (Pages.Page_card d) = Some "-"
  /\ Pages.tc_drop <$> Js.returned (Pages.Page_card z) = Some "0%".
Proof. vm_compute. repeat split. Qed.

Lemma Page_sort_only_deal_selects_deal_witness :
  match Api.run server_200 (Pages.Page None (Some (Some "Deal"))) with
  | inr view => Pages.tv_note view = "Sorted by Hot Score (deal quality + demand)."
                /\ Pages.tv_weight_hot view = 700
  | inl _ => False
  end
  /\ match Api.run server_200 (Pages.Page None (Some (Some "deal"))) with
     | inr view =>
         Pages.tv_note view = "Sorted by Deal Score (discount strength + price stability)."
         /\ Pages.tv_weight_deal view = 700
     | inl _ => False
     end.
Proof.
  split.
  - destruct (Page_sort_only_deal_selects_deal None (Some (Some "Deal")))
      as [Hhot _].
    destruct Hhot as (_ & _ & Hview); [discriminate |].
    destruct (Api.run server_200 (Pages.Page None (Some (Some "Deal"))))
      as [e | view] eqn:E.
    + vm_compute in E. discriminate E.
    + apply Hview in E. destruct E as (Hn & Hh & _). split; assumption.
  - destruct (Page_sort_only_deal_selects_deal None (Some (Some "deal")))
      as [_ Hdeal].
    destruct Hdeal as (_ & _ & Hview); [reflexivity |].
    destruct (Api.run server_200 (Pages.Page None (Some (Some "deal"))))
      as [e | view] eqn:E.
    + vm_compute in E. discriminate E.
    + apply Hview in E. destruct E as (Hn & _ & Hd). split; assumption.
Defined.

(** ** The run script *)

Section RunAllFacts.
Import RunAll.

Lemma keeps_mret {A} P (a : A) : keeps P (mret a).
Proof. intros st Hst. exact Hst. Qed.

Lemma keeps_throw {A} P msg : keeps P (@throw A msg).
Proof. intros st Hst. exact Hst. Qed.

Lemma keeps_mbind {A B} P (m : Script A) (f : A -> Script B) :
  keeps P m -> (forall a, keeps P (f a)) -> keeps P (m ≫= f).
Proof.
  intros Hm Hf st Hst. unfold mbind, Script_bind.
  specialize (Hm st Hst). destruct (m st) as [[e | a] st']; simpl in *.
  - exact Hm.
  - apply Hf, Hm.
Qed.

Lemma mbind_returned {A B} (m : Script A) (f : A -> Script B) st a st' :
  m st = (inr a, st') -> (m ≫= f) st = f a st'.
Proof. intros Hm. unfold mbind, Script_bind. rewrite Hm. reflexivity. Qed.

Lemma keeps_Write_Host v line : keeps (switched v) (Write_Host line).
Proof. intros st Hst. exact Hst. Qed.

Lemma keeps_run_child v cmd : keeps (switched v) (run_child cmd).
Proof.
  intros st [Hsw Hch]. split; [exact Hsw |]. simpl.
  intros c e Hin. apply elem_of_app in Hin as [Hin | Hin].
  - eapply Hch, Hin.
  - apply list_elem_of_singleton in Hin. injection Hin as -> ->. exact Hsw.
Qed.

Lemma keeps_invoke host v cmd : keeps (switched v) (invoke host cmd).
Proof.
  unfold invoke. destruct (start_error host cmd); [apply keeps_throw | apply keeps_run_child].
Qed.

Lemma keeps_wait_postgres host v left i :
  keeps (switched v) (wait_postgres host left i).
Proof.
  revert i. induction left as [| left IH]; intros i; simpl.
  - apply keeps_mret.
  - apply keeps_mbind; [apply keeps_run_child |]. intros _.
    destruct (pg_accepts host i); [apply keeps_Write_Host |].
    destruct (Nat.eqb i maxAttempts); [apply keeps_throw | apply IH].
Qed.

Lemma keeps_start_services host v : keeps (switched v) (start_services host).
Proof.
  unfold start_services.
  repeat lazymatch goal with
         | |- keeps _ (_ ≫= _) =>
             apply keeps_mbind; [first [apply keeps_Write_Host | apply keeps_invoke] | intros _]
         end.
  apply keeps_wait_postgres.
Qed.

Lemma keeps_ingest_and_report host v : keeps (switched v) (ingest_and_report host).
Proof.
  unfold ingest_and_report.
  repeat lazymatch goal with
         | |- keeps _ (_ ≫= _) =>
             apply keeps_mbind; [first [apply keeps_Write_Host | apply keeps_invoke] | intros _]
         end.
  apply keeps_invoke.
Qed.

Lemma keeps_open_html host p v : keeps (switched v) (open_html host p).
Proof.
  unfold open_html. destruct (negb (NoOpen p)).
  - apply keeps_mbind; [apply keeps_Write_Host | intros _; apply keeps_invoke].
  - apply keeps_Write_Host.
Qed.

Lemma banner_returns host e :
  exists lines, banner host (start e)
                = (inr tt, {| env := e; console := lines; spawned := [] |}).
Proof. eexists. reflexivity. Qed.

Lemma set_purge_switches p e lines :
  exists lines',
    set_purge p {| env := e; console := lines; spawned := [] |}
    = (inr tt, {| env := <["PURGE_DEALS_ON_START" := if KeepHistory p then "0" else "1"]> e;
                  console := lines'; spawned := [] |}).
Proof. unfold set_purge. destruct (KeepHistory p); eexists; reflexivity. Qed.

End RunAllFacts.

(** C6, amended.  On every invocation that finds the venv python (lines
    18-20; without it the script throws before it reaches the switch),
    [run_all.ps1] leaves [PURGE_DEALS_ON_START] at "1" unless
    [-KeepHistory] is passed and at "0" exactly when it is passed, and
    every process the script starts from then on, the ingestion among
    them, inherits that value. *)
Theorem run_all_purge_switch (host : RunAll.Host) (p : RunAll.Params)
    (e : gmap string string) :
  RunAll.python_exists host = true ->
  let st := (RunAll.run_all host p (RunAll.start e)).2 in
  let v := if RunAll.KeepHistory p then "0" else "1" in
  RunAll.purge_switch st = Some v
  /\ (RunAll.purge_switch st = Some "0" <-> RunAll.KeepHistory p = true)
  /\ (RunAll.purge_switch st = Some "1" <-> RunAll.KeepHistory p = false)
  /\ forall cmd e', (cmd, e') ∈ RunAll.spawned st ->
                    e' !! "PURGE_DEALS_ON_START" = Some v.
Proof.
  intros Hpy st v.
  assert (Hsw : switched v st).
  { subst st. unfold RunAll.run_all.
    destruct (banner_returns host e) as [lines Hb].
    rewrite (mbind_returned _ _ _ _ _ Hb).
    assert (Hc : RunAll.check_venv host
                   {| RunAll.env := e; RunAll.console := lines; RunAll.spawned := [] |}
                 = (inr tt, {| RunAll.env := e; RunAll.console := lines;
                               RunAll.spawned := [] |})).
    { unfold RunAll.check_venv. rewrite Hpy. reflexivity. }
    rewrite (mbind_returned _ _ _ _ _ Hc).
    destruct (set_purge_switches p e lines) as [lines' Hs].
    rewrite (mbind_returned _ _ _ _ _ Hs).
    refine (keeps_mbind (switched v) _ _ (keeps_start_services host v)
              (fun _ => keeps_mbind (switched v) _ _ (keeps_ingest_and_report host v)
                          (fun _ => keeps_open_html host p v)) _ _).
    split.
    - unfold RunAll.purge_switch. simpl. apply lookup_insert_eq.
    - simpl. intros cmd e' Hin. apply elem_of_nil in Hin. contradiction. }
  destruct Hsw as [Hv Hch].
  split; [exact Hv |]. split; [| split; [| exact Hch]].
  - rewrite Hv. subst v. destruct (RunAll.KeepHistory p); split; congruence.
  - rewrite Hv. subst v. destruct (RunAll.KeepHistory p); split; congruence.
Qed.

(** Without [-KeepHistory] and without a venv the script throws at line
    19 and the switch is as it was, here unset: "sets it to 1 for every
    invocation that does not pass KeepHistory" does not hold. *)
Lemma run_all_without_venv_leaves_switch :
  RunAll.KeepHistory purge_by_default = false
  /\ (RunAll.run_all host_without_venv purge_by_default (RunAll.start ∅)).1
     = inl "Venv python not found at: C:\deals\backend\.venv\Scripts\python.exe (did you create .venv?)"
  /\ RunAll.purge_switch (RunAll.run_all host_without_venv purge_by_default (RunAll.start ∅)).2
     = None.
Proof. split; [reflexivity |]. split; vm_compute; reflexivity. Qed.

Lemma run_all_purge_switch_witness :
  RunAll.purge_switch (RunAll.run_all host_ready purge_by_default (RunAll.start ∅)).2
  = Some "1"
  /\ RunAll.purge_switch (RunAll.run_all host_ready keep_history (RunAll.start ∅)).2
     = Some "0".
Proof.
  split.
  - destruct (run_all_purge_switch host_ready purge_by_default ∅ eq_refl) as [Hv _].
    exact Hv.
  - destruct (run_all_purge_switch host_ready keep_history ∅ eq_refl) as [Hv _].
    exact Hv.
Defined.

(** On the ready machine the ingestion is started, with the switch set. *)
Example ingestion_inherits_switch :
  (fun c => (c.1, c.2 !! "PURGE_DEALS_ON_START"))
    <$> List.filter (fun c => String.eqb c.1 (RunAll.ingestion_cmd host_ready))
          (RunAll.spawned (RunAll.run_all host_ready purge_by_default (RunAll.start ∅)).2)
  = [("C:\deals\backend\.venv\Scripts\python.exe -m app.ingestion", Some "1")].
Proof. vm_compute. reflexivity. Qed.

(** ** The Statistics Engine *)

Section MedianFacts.
Import Core.

Lemma filter_Permutation {A} (f : A -> bool) (l l' : list A) :
  Permutation l l' -> Permutation (List.filter f l) (List.filter f l').
Proof.
  induction 1 as [| x l l' _ IH | x y l | l l' l'' _ IH1 _ IH2]; simpl.
  - constructor.
  - destruct (f x); [constructor |]; exact IH.
  - destruct (f x), (f y); try reflexivity. constructor.
  - etransitivity; eassumption.
Qed.

Lemma filter_length_mono {A} (f g : A -> bool) (l : list A) :
  (forall x, f x = true -> g x = true) ->
  (length (List.filter f l) <= length (List.filter g l))%nat.
Proof.
  intros Hfg. induction l as [| x l IH]; simpl; [lia |].
  destruct (f x) eqn:Ef.
  - rewrite (Hfg x Ef). simpl. lia.
  - destruct (g x); simpl; lia.
Qed.

Lemma filter_length_all {A} (f : A -> bool) (l : list A) :
  Forall (fun x => f x = true) l -> length (List.filter f l) = length l.
Proof.
  induction 1 as [| x l Hx _ IH]; simpl; [reflexivity |].
  rewrite Hx. simpl. rewrite IH. reflexivity.
Qed.

Lemma sorted_nth_le (l : list Z) (i j : nat) :
  StronglySorted Z.le l -> (i <= j)%nat -> (j < length l)%nat ->
  (nth i l 0 <= nth j l 0)%Z.
Proof.
  intros Hs. revert i j. induction Hs as [| a l Hs IH Ha]; intros i j Hij Hj.
  - simpl in Hj. lia.
  - destruct j as [| j]; [replace i with 0%nat by lia; simpl; lia |].
    simpl in Hj. destruct i as [| i]; simpl.
    + rewrite List.Forall_forall in Ha. apply Ha, List.nth_In. lia.
    + apply IH; lia.
Qed.

(** In a sorted list, the element of index [i] has at least [i + 1]
    elements at or below it. *)
Lemma sorted_count_below (l : list Z) (i : nat) :
  StronglySorted Z.le l -> (i < length l)%nat ->
  (S i <= length (List.filter (fun x => x <=? nth i l 0)%Z l))%nat.
Proof.
  intros Hs Hi.
  pose proof (List.firstn_skipn (S i) l) as Hsplit.
  remember (nth i l 0%Z) as t eqn:Ht.
  rewrite <- Hsplit. rewrite List.filter_app, List.length_app.
  rewrite filter_length_all.
  - rewrite List.length_firstn. lia.
  - subst t. apply List.Forall_forall. intros x Hx.
    apply List.In_nth with (d := 0%Z) in Hx as (k & Hk & <-).
    rewrite List.length_firstn in Hk.
    rewrite List.nth_firstn. replace (k <? S i)%nat with true by (symmetry; apply Nat.ltb_lt; lia).
    apply Z.leb_le, sorted_nth_le; [exact Hs | lia | exact Hi].
Qed.

(** And at least [length l - i] elements at or above it. *)
Lemma sorted_count_above (l : list Z) (i : nat) :
  StronglySorted Z.le l -> (i < length l)%nat ->
  (length l - i <= length (List.filter (fun x => nth i l 0 <=? x)%Z l))%nat.
Proof.
  intros Hs Hi.
  pose proof (List.firstn_skipn i l) as Hsplit.
  remember (nth i l 0%Z) as t eqn:Ht.
  remember (length l - i)%nat as n eqn:Hn.
  rewrite <- Hsplit. rewrite List.filter_app, List.length_app.
  rewrite (filter_length_all _ (skipn i l)).
  - rewrite List.length_skipn. lia.
  - subst t. apply List.Forall_forall. intros x Hx.
    apply List.In_nth with (d := 0%Z) in Hx as (k & Hk & <-).
    rewrite List.length_skipn in Hk.
    rewrite List.nth_skipn.
    apply Z.leb_le, sorted_nth_le; [exact Hs | lia | lia].
Qed.

Lemma Qle_bool_inject (x y : Z) : Qle_bool (inject_Z x) (inject_Z y) = (x <=? y)%Z.
Proof.
  destruct (x <=? y)%Z eqn:E.
  - apply Qle_bool_iff. rewrite <- Zle_Qle. apply Z.leb_le, E.
  - destruct (Qle_bool (inject_Z x) (inject_Z y)) eqn:E'; [| reflexivity].
    apply Qle_bool_iff in E'. rewrite <- Zle_Qle in E'.
    apply Z.leb_le in E'. congruence.
Qed.

End MedianFacts.

Section MedianClaims.
Import Core.

Lemma odd_half (n : nat) : Nat.odd n = true -> (n = 2 * (n / 2) + 1)%nat.
Proof.
  intros Ho. apply Nat.odd_spec in Ho as [k ->].
  replace ((2 * k + 1) / 2)%nat with k; [reflexivity |].
  apply Nat.div_unique with (r := 1%nat); lia.
Qed.

Lemma even_half (n : nat) : Nat.odd n = false -> (n = 2 * (n / 2))%nat.
Proof.
  intros Ho. rewrite <- Nat.negb_even in Ho. apply negb_false_iff in Ho.
  apply Nat.even_spec in Ho as [k ->].
  replace (2 * k / 2)%nat with k; [reflexivity |].
  apply Nat.div_unique with (r := 0%nat); lia.
Qed.

Lemma mean_between (a b : Z) :
  (a <= b)%Z ->
  (inject_Z a <= (inject_Z a + inject_Z b) / 2)%Q
  /\ ((inject_Z a + inject_Z b) / 2 <= inject_Z b)%Q.
Proof.
  intros Hab. rewrite Zle_Qle in Hab.
  split.
  - apply Qle_shift_div_l; [reflexivity |]. lra.
  - apply Qle_shift_div_r; [reflexivity |]. lra.
Qed.

Lemma median_sorted_is_median (l : list Z) (m : Q) :
  StronglySorted Z.le l -> median_sorted l = Some m -> is_median m l.
Proof.
  intros Hs. unfold median_sorted.
  destruct (Nat.eqb_spec (length l) 0) as [| Hpos]; [discriminate |].
  destruct (Nat.odd (length l)) eqn:Ho; intros [= <-].
  - apply odd_half in Ho. set (k := (length l / 2)%nat) in *.
    assert (Hk : (k < length l)%nat) by lia.
    split.
    + pose proof (sorted_count_below l k Hs Hk) as Hc.
      rewrite (List.filter_ext _ (fun x => x <=? nth k l 0)%Z); [lia |].
      intros x. apply Qle_bool_inject.
    + pose proof (sorted_count_above l k Hs Hk) as Hc.
      rewrite (List.filter_ext _ (fun x => nth k l 0 <=? x)%Z); [lia |].
      intros x. apply Qle_bool_inject.
  - apply even_half in Ho. set (k := (length l / 2)%nat) in *.
    assert (Hk : (k < length l)%nat) by lia.
    assert (Hk1 : (k - 1 < length l)%nat) by lia.
    assert (Hab : (nth (k - 1) l 0 <= nth k l 0)%Z)
      by (apply sorted_nth_le; [exact Hs | lia | exact Hk]).
    destruct (mean_between _ _ Hab) as [Hlo Hhi].
    change (is_median ((inject_Z (nth (k - 1) l 0%Z) + inject_Z (nth k l 0%Z)) / 2) l).
    split.
    + pose proof (sorted_count_below l (k - 1) Hs Hk1) as Hc.
      pose proof (filter_length_mono
                    (fun x => x <=? nth (k - 1)%nat l 0)%Z
                    (at_most ((inject_Z (nth (k - 1)%nat l 0%Z) + inject_Z (nth k l 0%Z)) / 2))
                    l) as Hm.
      assert (Hm' := Hm ltac:(
        intros x Hx; apply Qle_bool_iff; apply Z.leb_le in Hx; rewrite Zle_Qle in Hx;
        eapply Qle_trans; eassumption)).
      lia.
    + pose proof (sorted_count_above l k Hs Hk) as Hc.
      pose proof (filter_length_mono
                    (fun x => nth k l 0 <=? x)%Z
                    (at_least ((inject_Z (nth (k - 1)%nat l 0%Z) + inject_Z (nth k l 0%Z)) / 2))
                    l) as Hm.
      assert (Hm' := Hm ltac:(
        intros x Hx; apply Qle_bool_iff; apply Z.leb_le in Hx; rewrite Zle_Qle in Hx;
        eapply Qle_trans; eassumption)).
      lia.
Qed.

(** The textbook expression: the mean of the order statistics of ranks
    [(n - 1) / 2] and [n / 2], which are one element when [n] is odd. *)
Lemma median_sorted_formula (l : list Z) (m : Q) :
  median_sorted l = Some m ->
  (m == (inject_Z (nth ((length l - 1) / 2)%nat l 0%Z)
         + inject_Z (nth (length l / 2)%nat l 0%Z)) / 2)%Q.
Proof.
  unfold median_sorted.
  destruct (Nat.eqb_spec (length l) 0) as [| Hpos]; [discriminate |].
  destruct (Nat.odd (length l)) eqn:Ho; intros [= <-].
  - apply odd_half in Ho.
    replace ((length l - 1) / 2)%nat with (length l / 2)%nat
      by (apply Nat.div_unique with (r := 0%nat); lia).
    set (x := inject_Z (nth (length l / 2) l 0%Z)).
    change (x == (x + x) / 2)%Q. field.
  - apply even_half in Ho.
    replace ((length l - 1) / 2)%nat with (length l / 2 - 1)%nat; [reflexivity |].
    apply Nat.div_unique with (r := 1%nat); lia.
Qed.

Lemma is_median_Permutation (m : Q) (l l' : list Z) :
  Permutation l l' -> is_median m l -> is_median m l'.
Proof.
  intros Hp [Hlo Hhi]. unfold is_median.
  rewrite <- (Permutation_length Hp).
  rewrite <- (Permutation_length (filter_Permutation (at_most m) _ _ Hp)).
  rewrite <- (Permutation_length (filter_Permutation (at_least m) _ _ Hp)).
  split; assumption.
Qed.

Lemma sort_prices_sorted (ps : list Z) : StronglySorted Z.le (sort_prices ps).
Proof. apply StronglySorted_merge_sort; apply _. Qed.

Lemma sort_prices_Permutation (ps : list Z) : Permutation (sort_prices ps) ps.
Proof. apply merge_sort_Permutation. Qed.

Lemma sort_prices_order_free (ps ps' : list Z) :
  Permutation ps ps' -> sort_prices ps = sort_prices ps'.
Proof.
  intros Hp. apply (StronglySorted_unique Z.le); try apply sort_prices_sorted.
  rewrite !sort_prices_Permutation. exact Hp.
Qed.

Lemma window_prices_Permutation cfg now (series series' : PriceSeries) :
  Permutation series series' ->
  Permutation (window_prices cfg now series) (window_prices cfg now series').
Proof.
  intros Hp. unfold window_prices. apply Permutation_map, filter_Permutation, Hp.
Qed.

Lemma priceMedian90d_order_free cfg now (series series' : PriceSeries) :
  Permutation series series' ->
  priceMedian90d cfg now series' = priceMedian90d cfg now series.
Proof.
  intros Hp. unfold priceMedian90d.
  pose proof (window_prices_Permutation cfg now _ _ Hp) as Hw.
  rewrite <- (Permutation_length Hw).
  rewrite (sort_prices_order_free _ _ Hw). reflexivity.
Qed.

(** C3.  With a minimum sample count of at most 3, a series with at
    least 3 samples inside the trailing window has a defined
    [priceMedian90d]; it is the mean of the two middle order statistics
    of the in-window prices (the middle one when their number is odd),
    at least half of those prices lie at or below it and at least half
    at or above it; and every reordering of the series gives the same
    value. *)
Theorem priceMedian90d_is_median cfg now (series : PriceSeries) :
  (minSamples cfg <= 3)%nat ->
  (3 <= length (window_prices cfg now series))%nat ->
  exists (m : Q) (sorted : list Z),
    priceMedian90d cfg now series = Some m
    /\ Permutation sorted (window_prices cfg now series)
    /\ StronglySorted Z.le sorted
    /\ (m == (inject_Z (nth ((length sorted - 1) / 2)%nat sorted 0%Z)
              + inject_Z (nth (length sorted / 2)%nat sorted 0%Z)) / 2)%Q
    /\ is_median m (window_prices cfg now series)
    /\ forall series', Permutation series series' ->
                       priceMedian90d cfg now series' = Some m.
Proof.
  intros Hmin Hlen.
  set (ps := window_prices cfg now series) in *.
  assert (Hdef : priceMedian90d cfg now series = median_sorted (sort_prices ps)).
  { unfold priceMedian90d. fold ps.
    replace (length ps <? minSamples cfg)%nat with false; [reflexivity |].
    symmetry. apply Nat.ltb_ge. lia. }
  destruct (median_sorted (sort_prices ps)) as [m |] eqn:Hm.
  - exists m, (sort_prices ps). split; [exact Hdef |].
    split; [apply sort_prices_Permutation |].
    split; [apply sort_prices_sorted |].
    split; [apply median_sorted_formula, Hm |].
    split.
    + eapply is_median_Permutation; [apply sort_prices_Permutation |].
      apply median_sorted_is_median; [apply sort_prices_sorted | exact Hm].
    + intros series' Hp. rewrite (priceMedian90d_order_free _ _ _ _ Hp). exact Hdef.
  - exfalso. unfold median_sorted in Hm.
    pose proof (Permutation_length (sort_prices_Permutation ps)) as Hl.
    destruct (Nat.eqb_spec (length (sort_prices ps)) 0) as [Hz | _]; [lia |].
    destruct (Nat.odd (length (sort_prices ps))); discriminate.
Qed.

End MedianClaims.

Example scenario_median :
  Core.priceMedian90d Core.default_config scenario_now scenario = Some (inject_Z 80).
Proof. vm_compute. reflexivity. Qed.

Example scenario_discount :
  Core.same_number
    (Core.st_discountPct90d (Core.statistics Core.default_config scenario_now scenario))
    (Some (1 # 4)).
Proof. vm_compute. reflexivity. Qed.

Example scenario_confidence_above_floor :
  (Core.confFloor Core.default_config
   < Core.confidence Core.default_config scenario_now scenario
       (Core.stale Core.default_config scenario_now scenario))%Z.
Proof. vm_compute. reflexivity. Qed.

Lemma priceMedian90d_is_median_witness :
  (Core.minSamples Core.default_config <= 3)%nat
  /\ (3 <= length (Core.window_prices Core.default_config scenario_now scenario))%nat
  /\ Core.priceMedian90d Core.default_config scenario_now
       [(1080, 80); (0, 100); (2136, 60)]%Z
     = Core.priceMedian90d Core.default_config scenario_now scenario.
Proof.
  assert (Hmin : (Core.minSamples Core.default_config <= 3)%nat) by (vm_compute; lia).
  assert (Hlen : (3 <= length (Core.window_prices Core.default_config scenario_now scenario))%nat)
    by (vm_compute; lia).
  split; [exact Hmin |]. split; [exact Hlen |].
  destruct (priceMedian90d_is_median Core.default_config scenario_now scenario Hmin Hlen)
    as (m & sorted & Hm & _ & _ & _ & _ & Hfree).
  rewrite Hm. apply Hfree. apply perm_swap.
Defined.

(** ** Discount *)

Section DiscountClaims.
Import Core.

Lemma latest_nonempty (s : Sample) (rest : PriceSeries) :
  exists r, latest (s :: rest) = Some r.
Proof.
  simpl. destruct (latest rest) as [r |]; [| eauto].
  destruct ((fst s <? fst r)%Z || (fst s =? fst r)%Z); eauto.
Qed.

Lemma priceMedian90d_defined_nonempty cfg now series m :
  priceMedian90d cfg now series = Some m -> series <> [].
Proof.
  intros Hm ->. unfold priceMedian90d, window_prices in Hm. simpl in Hm.
  destruct (0 <? minSamples cfg)%nat; discriminate.
Qed.

Lemma priceCurrent_defined cfg now series m :
  priceMedian90d cfg now series = Some m -> exists c, priceCurrent series = Some c.
Proof.
  intros Hm. apply priceMedian90d_defined_nonempty in Hm.
  destruct series as [| s rest]; [contradiction |].
  destruct (latest_nonempty s rest) as [r Hr].
  exists (snd r). unfold priceCurrent. rewrite Hr. reflexivity.
Qed.

Lemma quotient_at_most_one (m c : Q) :
  (0 < m)%Q -> (0 <= c)%Q -> ((m - c) / m <= 1)%Q.
Proof. intros Hm Hc. apply Qle_shift_div_r; [exact Hm |]. lra. Qed.

Lemma quotient_negative (m c : Q) :
  (0 < m)%Q -> (m < c)%Q -> ((m - c) / m < 0)%Q.
Proof. intros Hm Hc. apply Qlt_shift_div_r; [exact Hm |]. lra. Qed.

(** C2.  In the output of the Statistics Engine, [discountPct90d] is
    null when [priceMedian90d] is null or not positive; with a positive
    median there is a current price and the discount is
    [(median - current) / median] cut off at 1: it never exceeds 1, it
    is that quotient itself for every current price that is not
    negative, and it is negative when the current price exceeds the
    median. *)
Theorem discountPct90d_of_statistics cfg now (series : PriceSeries) :
  let r := statistics cfg now series in
  (st_priceMedian90d r = None -> st_discountPct90d r = None)
  /\ (forall m, st_priceMedian90d r = Some m -> (m <= 0)%Q -> st_discountPct90d r = None)
  /\ (forall m, st_priceMedian90d r = Some m -> (0 < m)%Q ->
        exists c d,
          st_priceCurrent r = Some c
          /\ st_discountPct90d r = Some d
          /\ (d == Qmin 1 ((m - inject_Z c) / m))%Q
          /\ (d <= 1)%Q
          /\ ((0 <= c)%Z -> (d == (m - inject_Z c) / m)%Q)
          /\ ((m < inject_Z c)%Q -> (d == (m - inject_Z c) / m)%Q /\ (d < 0)%Q)).
Proof.
  simpl. split; [| split].
  - intros ->. reflexivity.
  - intros m -> Hm. unfold discountPct90d.
    destruct (priceCurrent series); [| reflexivity].
    apply Qle_bool_iff in Hm. rewrite Hm. reflexivity.
  - intros m Hmed Hm.
    destruct (priceCurrent_defined _ _ _ _ Hmed) as [c Hc].
    exists c, (Qmin 1 ((m - inject_Z c) / m)).
    split; [exact Hc |]. rewrite Hmed, Hc. unfold discountPct90d.
    destruct (Qle_bool m 0) eqn:E.
    { apply Qle_bool_iff in E. lra. }
    split; [reflexivity |]. split; [reflexivity |].
    split; [apply Q.le_min_l |]. split.
    + intros Hc0. apply Q.min_r, quotient_at_most_one; [exact Hm |].
      rewrite Zle_Qle in Hc0. exact Hc0.
    + intros Hcm. pose proof (quotient_negative _ _ Hm Hcm) as Hneg.
      split.
      * apply Q.min_r. lra.
      * rewrite Q.min_r; [exact Hneg | lra].
Qed.

End DiscountClaims.

Lemma discountPct90d_of_statistics_witness :
  Core.st_priceMedian90d (Core.statistics Core.default_config scenario_now scenario)
  = Some (inject_Z 80)
  /\ exists c d,
       Core.st_priceCurrent (Core.statistics Core.default_config scenario_now scenario) = Some c
       /\ Core.st_discountPct90d (Core.statistics Core.default_config scenario_now scenario)
          = Some d
       /\ (d == (inject_Z 80 - inject_Z c) / inject_Z 80)%Q.
Proof.
  assert (Hmed : Core.st_priceMedian90d
                   (Core.statistics Core.default_config scenario_now scenario)
                 = Some (inject_Z 80)) by (vm_compute; reflexivity).
  split; [exact Hmed |].
  destruct (discountPct90d_of_statistics Core.default_config scenario_now scenario)
    as (_ & _ & Hpos).
  destruct (Hpos (inject_Z 80) Hmed ltac:(reflexivity))
    as (c & d & Hc & Hd & _ & _ & Hquot & _).
  exists c, d. split; [exact Hc |]. split; [exact Hd |].
  apply Hquot. vm_compute in Hc. injection Hc as <-. discriminate.
Defined.

(** ** Confidence *)

Section ConfidenceClaims.
Import Core.

Lemma clamp_mono (lo hi x y : Z) : (x <= y)%Z -> (clamp lo hi x <= clamp lo hi y)%Z.
Proof. unfold clamp. lia. Qed.

Lemma clamp_floor (lo hi x : Z) : (lo <= clamp lo hi x)%Z.
Proof. unfold clamp. lia. Qed.

Lemma clamp_ceil (lo hi x : Z) : (lo <= hi)%Z -> (clamp lo hi x <= hi)%Z.
Proof. unfold clamp. lia. Qed.

Lemma confidence_of_floor cfg (n : nat) (is_stale : bool) (gap : Z) :
  (confFloor cfg <= confidence_of cfg n is_stale gap)%Z.
Proof.
  unfold confidence_of.
  destruct ((n <? minSamples cfg)%nat || (n =? 0)%nat); [lia | apply clamp_floor].
Qed.

Lemma confidence_of_samples cfg (n n' : nat) (is_stale : bool) (gap : Z) :
  (0 <= wCount cfg)%Z -> (n <= n')%nat ->
  (confidence_of cfg n is_stale gap <= confidence_of cfg n' is_stale gap)%Z.
Proof.
  intros Hw Hn. unfold confidence_of.
  destruct ((n <? minSamples cfg)%nat || (n =? 0)%nat) eqn:En.
  - apply (confidence_of_floor cfg n' is_stale gap).
  - apply orb_false_iff in En as [En1 En2].
    apply Nat.ltb_ge in En1. apply Nat.eqb_neq in En2.
    replace ((n' <? minSamples cfg)%nat || (n' =? 0)%nat) with false.
    + apply clamp_mono.
      assert (Hmin : (wCount cfg * Z.min (Z.of_nat n) (saturation cfg)
                      <= wCount cfg * Z.min (Z.of_nat n') (saturation cfg))%Z)
        by (apply Z.mul_le_mono_nonneg_l; lia).
      generalize dependent (wGap cfg * gap / windowHours cfg)%Z. intros. lia.
    + symmetry. apply orb_false_iff. split; [apply Nat.ltb_ge | apply Nat.eqb_neq]; lia.
Qed.

Lemma confidence_of_stale cfg (n : nat) (s s' : bool) (gap : Z) :
  (0 <= wStale cfg)%Z -> (s = true -> s' = true) ->
  (confidence_of cfg n s' gap <= confidence_of cfg n s gap)%Z.
Proof.
  intros Hw Hs. unfold confidence_of.
  destruct ((n <? minSamples cfg)%nat || (n =? 0)%nat); [lia |].
  apply clamp_mono.
  generalize dependent (wGap cfg * gap / windowHours cfg)%Z.
  generalize dependent (wCount cfg * Z.min (Z.of_nat n) (saturation cfg))%Z.
  intros. destruct s, s'; lia.
Qed.

Lemma confidence_of_gap cfg (n : nat) (is_stale : bool) (gap gap' : Z) :
  (0 <= wGap cfg)%Z -> (0 < windowHours cfg)%Z -> (gap <= gap')%Z ->
  (confidence_of cfg n is_stale gap' <= confidence_of cfg n is_stale gap)%Z.
Proof.
  intros Hw Hwin Hg. unfold confidence_of.
  destruct ((n <? minSamples cfg)%nat || (n =? 0)%nat); [lia |].
  apply clamp_mono.
  assert (Hdiv : (wGap cfg * gap / windowHours cfg
                  <= wGap cfg * gap' / windowHours cfg)%Z).
  { apply Z.div_le_mono; [exact Hwin |]. apply Z.mul_le_mono_nonneg_l; assumption. }
  lia.
Qed.

Lemma undefined_median_few_samples cfg now (series : PriceSeries) :
  priceMedian90d cfg now series = None ->
  (length (window_prices cfg now series) <? minSamples cfg)%nat
  || (length (window_prices cfg now series) =? 0)%nat = true.
Proof.
  unfold priceMedian90d. intros Hm.
  set (n := length (window_prices cfg now series)) in *.
  destruct (n <? minSamples cfg)%nat; [reflexivity |]. simpl.
  unfold median_sorted in Hm.
  assert (Hl : length (sort_prices (window_prices cfg now series)) = n)
    by (apply (Permutation_length (sort_prices_Permutation _))).
  rewrite Hl in Hm.
  destruct (n =? 0)%nat; [reflexivity |].
  destruct (Nat.odd n); discriminate.
Qed.

(** C4.  For every configuration with a non-empty range and weights
    that are not negative, the confidence does not decrease when the
    sample count grows and does not increase when the series turns
    stale or grows older, nor when its gaps grow, the other inputs held
    fixed; it stays within the range; and a series whose median is
    undefined has the floor value, stale or not. *)
Theorem confidence_monotone cfg :
  Config_ok cfg ->
  (forall (n n' : nat) (is_stale : bool) (gap : Z), (n <= n')%nat ->
     (confidence_of cfg n is_stale gap <= confidence_of cfg n' is_stale gap)%Z)
  /\ (forall (n : nat) (gap : Z),
        (confidence_of cfg n true gap <= confidence_of cfg n false gap)%Z)
  /\ (forall (n : nat) (gap age age' : Z), (age <= age')%Z ->
        (confidence_of cfg n (freshnessHours cfg <? age')%Z gap
         <= confidence_of cfg n (freshnessHours cfg <? age)%Z gap)%Z)
  /\ (forall (n : nat) (is_stale : bool) (gap gap' : Z), (gap <= gap')%Z ->
        (confidence_of cfg n is_stale gap' <= confidence_of cfg n is_stale gap)%Z)
  /\ (forall (n : nat) (is_stale : bool) (gap : Z),
        (confFloor cfg <= confidence_of cfg n is_stale gap <= confCeil cfg)%Z)
  /\ (forall now (series : PriceSeries) (is_stale : bool),
        priceMedian90d cfg now series = None ->
        confidence cfg now series is_stale = confFloor cfg).
Proof.
  intros (Hrange & Hcount & Hstale & Hgap & Hwindow).
  split; [| split; [| split; [| split; [| split]]]].
  - intros n n' s gap Hn. apply confidence_of_samples; assumption.
  - intros n gap. apply confidence_of_stale; [assumption | discriminate].
  - intros n gap age age' Hage. apply confidence_of_stale; [assumption |].
    intros Hs. apply Z.ltb_lt in Hs. apply Z.ltb_lt. lia.
  - intros n s gap gap' Hg. apply confidence_of_gap; assumption.
  - intros n s gap. split; [apply confidence_of_floor |].
    unfold confidence_of.
    destruct ((n <? minSamples cfg)%nat || (n =? 0)%nat);
      [exact Hrange | apply clamp_ceil, Hrange].
  - intros now series s Hm. unfold confidence, confidence_of.
    rewrite (undefined_median_few_samples _ _ _ Hm). reflexivity.
Qed.

End ConfidenceClaims.

Lemma confidence_monotone_witness :
  Core.Config_ok Core.default_config
  /\ (Core.confidence_of Core.default_config 3 false 2088
      <= Core.confidence_of Core.default_config 30 false 2088)%Z
  /\ (Core.confidence_of Core.default_config 30 true 2088
      <= Core.confidence_of Core.default_config 30 false 2088)%Z
  /\ Core.confidence Core.default_config scenario_now [(2136, 60)%Z] false
     = Core.confFloor Core.default_config.
Proof.
  assert (Hok : Core.Config_ok Core.default_config) by (vm_compute; intuition discriminate).
  destruct (confidence_monotone Core.default_config Hok)
    as (Hn & Hs & _ & _ & _ & Hfloor).
  split; [exact Hok |]. split; [apply Hn; lia |]. split; [apply Hs |].
  apply Hfloor. vm_compute. reflexivity.
Defined.

(** ** Scores *)

(** C5.  Whatever the discount, stability and confidence, a record
    without demand score gets a hot score equal to its deal score, so
    comparing two such records by hot score is comparing them by deal
    score. *)
Theorem hotScore_without_demand cfg
    (discount discount' : option Q) (stability stability' : Q) (conf conf' : Z) :
  Core.hotScore cfg (Core.score cfg discount stability conf) None
  = Core.score cfg discount stability conf
  /\ snd (Core.compose cfg discount stability conf None)
     = fst (Core.compose cfg discount stability conf None)
  /\ (snd (Core.compose cfg discount stability conf None)
      ?= snd (Core.compose cfg discount' stability' conf' None))%Q
     = (fst (Core.compose cfg discount stability conf None)
        ?= fst (Core.compose cfg discount' stability' conf' None))%Q.
Proof. repeat split. Qed.

(** With demand the two scores differ in general. *)
Example hotScore_with_demand :
  ~ (Core.hotScore Core.default_config 40 (Some 90) == 40)%Q.
Proof. vm_compute. discriminate. Qed.

(** ** The Snapshot Writer *)

Section SnapshotClaims.
Import Snapshot.

(** A property of the table that every step of a list keeps holds of
    every state of the trace and of the final state. *)
Lemma trace_invariant (P : Db -> Prop) (ss : list Step) (db : Db) :
  P db -> (forall s d, In s ss -> P d -> P (step s d)) ->
  Forall P (trace ss db).
Proof.
  revert db. induction ss as [| s ss IH]; intros db Hdb Hstep; simpl.
  - constructor; [exact Hdb | constructor].
  - constructor; [exact Hdb |].
    apply IH.
    + apply Hstep; [left; reflexivity | exact Hdb].
    + intros s' d Hin. apply Hstep. right. exact Hin.
Qed.

Lemma final_invariant (P : Db -> Prop) (ss : list Step) (db : Db) :
  P db -> (forall s d, In s ss -> P d -> P (step s d)) -> P (final ss db).
Proof.
  unfold final. revert db. induction ss as [| s ss IH]; intros db Hdb Hstep; simpl.
  - exact Hdb.
  - apply IH.
    + apply Hstep; [left; reflexivity | exact Hdb].
    + intros s' d Hin. apply Hstep. right. exact Hin.
Qed.

Lemma trace_snoc (ss : list Step) (s : Step) (db : Db) :
  trace (ss ++ [s]) db = (trace ss db ++ [step s (final ss db)])%list.
Proof.
  unfold final. revert db. induction ss as [| s' ss IH]; intros db; simpl.
  - reflexivity.
  - rewrite IH. reflexivity.
Qed.

Lemma final_snoc (ss : list Step) (s : Step) (db : Db) :
  final (ss ++ [s]) db = step s (final ss db).
Proof. unfold final. rewrite fold_left_app. reflexivity. Qed.

(** The writes of an open transaction touch the private copy only. *)
Lemma final_writes (ws : list Write) (c p : Store) :
  final (List.map Do ws) {| committed := c; pending := Some p |}
  = {| committed := c; pending := Some (apply_all ws p) |}.
Proof.
  unfold final, apply_all. revert p. induction ws as [| w ws IH]; intros p; simpl.
  - reflexivity.
  - apply IH.
Qed.

Lemma step_keeps_committed (s : Step) (d : Db) :
  s <> Commit -> committed (step s d) = committed d.
Proof. destruct s; simpl; intros Hs; [reflexivity .. | contradiction]. Qed.

Lemma failing_steps_never_commit (k : nat) (ws : list Write) (s : Step) :
  In s (Begin :: List.map Do (take k ws) ++ [Rollback])%list -> s <> Commit.
Proof.
  intros [<- | Hin]; [discriminate |].
  apply in_app_or in Hin as [Hin | [<- | []]]; [| discriminate].
  apply in_map_iff in Hin as (w & <- & _). discriminate.
Qed.

(** C1.  When the write of index [k] of a cycle fails, [k] ranging over
    every write and the final commit, the cycle is reported as failed,
    the table is the one from before the cycle, rows and flags, so the
    active records are the same, and at every moment of the attempt
    readers are served the active records from before.  Failing or
    not, what readers are served at any moment is the active set from
    before the cycle or the one with all of the cycle's writes applied,
    never one with only some of them. *)
Theorem commit_failure_rolls_back (purge : bool) (g : nat) (now : Z)
    (fresh : list DealRecord) (prior : Store) (k : nat) :
  (k <= length (plan purge g now prior fresh))%nat ->
  commit_cycle purge g now (Some k) fresh prior = (CommitFailure, prior)
  /\ active (snd (commit_cycle purge g now (Some k) fresh prior)) = active prior
  /\ Forall (fun seen => seen = active prior)
       (observations purge g now (Some k) fresh prior)
  /\ forall fail_at,
       Forall (fun seen => seen = active prior
                           \/ seen = active (apply_all (plan purge g now prior fresh) prior))
         (observations purge g now fail_at fresh prior).
Proof.
  intros Hk. set (ws := plan purge g now prior fresh) in *.
  set (db0 := {| committed := prior; pending := None |}).
  assert (Hfail : forall j, (j <= length ws)%nat ->
            Forall (fun d => committed d = prior) (trace (steps (Some j) ws) db0)
            /\ committed (final (steps (Some j) ws) db0) = prior).
  { intros j Hj. unfold steps.
    replace (j <=? length ws)%nat with true by (symmetry; apply Nat.leb_le, Hj).
    split.
    - apply trace_invariant; [reflexivity |].
      intros s d Hin Hd. rewrite step_keeps_committed; [exact Hd |].
      eapply failing_steps_never_commit, Hin.
    - apply (final_invariant (fun d => committed d = prior)); [reflexivity |].
      intros s d Hin Hd. rewrite step_keeps_committed; [exact Hd |].
      eapply failing_steps_never_commit, Hin. }
  assert (Hsucc : Forall (fun d => committed d = prior \/ committed d = apply_all ws prior)
                    (trace (Begin :: List.map Do ws ++ [Commit])%list db0)).
  { change (Begin :: List.map Do ws ++ [Commit])%list
      with ((Begin :: List.map Do ws) ++ [Commit])%list.
    rewrite trace_snoc. apply Forall_app. split.
    - eapply Forall_impl; [| intros d Hd; left; exact Hd].
      apply trace_invariant; [reflexivity |].
      intros s d Hin Hd. rewrite step_keeps_committed; [exact Hd |].
      destruct Hin as [<- | Hin]; [discriminate |].
      apply in_map_iff in Hin as (w & <- & _). discriminate.
    - constructor; [| constructor]. right.
      change (final (Begin :: List.map Do ws) db0)
        with (final (List.map Do ws) {| committed := prior; pending := Some prior |}).
      rewrite final_writes. reflexivity. }
  destruct (Hfail k Hk) as [Htrace Hfinal].
  split; [| split; [| split]].
  - unfold commit_cycle. cbv zeta. fold ws. fold db0. rewrite Hfinal. unfold outcome_of.
    replace (k <=? length ws)%nat with true by (symmetry; apply Nat.leb_le, Hk).
    reflexivity.
  - unfold commit_cycle. cbv zeta. fold ws. fold db0. cbn [snd]. rewrite Hfinal. reflexivity.
  - unfold observations. cbv zeta. fold ws. fold db0. apply Forall_map.
    eapply Forall_impl; [exact Htrace |]. intros d Hd. simpl. rewrite Hd. reflexivity.
  - intros fail_at. unfold observations. cbv zeta. fold ws. fold db0. apply Forall_map.
    assert (Hall : Forall (fun d => committed d = prior \/ committed d = apply_all ws prior)
                     (trace (steps fail_at ws) db0)).
    { destruct fail_at as [j |]; [| exact Hsucc].
      destruct (Nat.leb_spec j (length ws)) as [Hj | Hj].
      - eapply Forall_impl; [apply (Hfail j Hj) |]. intros d Hd. left. exact Hd.
      - unfold steps. replace (j <=? length ws)%nat with false; [exact Hsucc |].
        symmetry. apply Nat.leb_gt, Hj. }
    eapply Forall_impl; [exact Hall |].
    intros d [Hd | Hd]; simpl; rewrite Hd; [left | right]; reflexivity.
Qed.

End SnapshotClaims.

Example plan_has_six_writes :
  length (Snapshot.plan false 2 200 prior_store fresh_records) = 6%nat.
Proof. reflexivity. Qed.

(** The cycle committed: the new rows are the active ones, the row that
    stays keeps its [publishedAt], the old rows are retained inactive. *)
Example committed_cycle :
  let st := snd (Snapshot.commit_cycle false 2 200 None fresh_records prior_store) in
  List.map (fun r => (Snapshot.asin r, Snapshot.generation r, Snapshot.publishedAt r))
    (Snapshot.active st)
  = [("B001", 2%nat, 100%Z); ("B003", 2%nat, 200%Z)]
  /\ length st = 4%nat.
Proof. vm_compute. split; reflexivity. Qed.

Lemma commit_failure_rolls_back_witness :
  (3 <= length (Snapshot.plan false 2 200 prior_store fresh_records))%nat
  /\ Snapshot.commit_cycle false 2 200 (Some 3%nat) fresh_records prior_store
     = (Snapshot.CommitFailure, prior_store)
  /\ Forall (fun seen => seen = Snapshot.active prior_store)
       (Snapshot.observations false 2 200 (Some 3%nat) fresh_records prior_store).
Proof.
  assert (Hk : (3 <= length (Snapshot.plan false 2 200 prior_store fresh_records))%nat)
    by (vm_compute; lia).
  destruct (commit_failure_rolls_back false 2 200 fresh_records prior_store 3 Hk)
    as (Hfailed & _ & Hseen & _).
  split; [exact Hk |]. split; [exact Hfailed | exact Hseen].
Defined.

(** ** The hot figure of the top page *)

Section HotFallback.
Context {num : Type} `{Js.JsNum num} `{Js.JsText}.
Import Js Pages.

(** X18.  A card whose record has no [hot_score] shows the deal score
    in its place ([d.hot_score ?? d.score ?? 0]). *)
Lemma Page_card_hot_falls_back (d : Js.value num) (card : TopCard) :
  outcome (Page_card d) = inr card ->
  (forall v, outcome (get d "hot_score") = inr v -> nullish v = true) ->
  tc_hot card = tc_deal card.
Proof.
  unfold Page_card. intros Hcard Hnull.
  apply outcome_mbind in Hcard as (asin & _ & Hcard).
  apply outcome_mbind in Hcard as (category & _ & Hcard).
  apply outcome_mbind in Hcard as (key_asin & _ & Hcard).
  apply outcome_mbind in Hcard as (key_category & _ & Hcard).
  apply outcome_mbind in Hcard as (category_text & _ & Hcard).
  apply outcome_mbind in Hcard as (hot_score & Hhot & Hcard).
  apply outcome_mbind in Hcard as (score & _ & Hcard).
  apply outcome_mbind in Hcard as (hot_text & Hht & Hcard).
  apply outcome_mbind in Hcard as (deal_text & Hdt & Hcard).
  repeat (apply outcome_mbind in Hcard as (? & _ & Hcard)).
  simpl in Hcard. injection Hcard as <-. simpl.
  apply Hnull in Hhot.
  assert (Hco : coalesce hot_score score = score)
    by (unfold coalesce; rewrite Hhot; reflexivity).
  rewrite Hco in Hht. congruence.
Qed.

End HotFallback.


(** * Further properties of the sources *)

(** ** lib/api.ts *)

Section ApiExtras.
Context {num : Type} `{Api.UrlApi}.
Import Js Api.

Lemma requests_abind {A B} (server : string -> RequestInit -> @FetchResult num)
    (m : @Async num A) (f : A -> @Async num B) :
  requests server (abind m f)
  = (requests server m
     ++ match run server m with
        | inr a => requests server (f a)
        | inl _ => []
        end)%list.
Proof.
  induction m as [a | e | url init k IH]; simpl.
  - reflexivity.
  - reflexivity.
  - rewrite IH. reflexivity.
Qed.

Lemma requests_json (server : string -> RequestInit -> @FetchResult num)
    (res : @Response num) :
  requests server (json res) = [].
Proof. unfold json. destruct (body res); reflexivity. Qed.

(** The outcome of the client's common tail: one [fetch], the status
    test with its message, and the body. *)
Lemma run_request (server : string -> RequestInit -> @FetchResult num)
    (url msg : string) :
  run server (abind (fetch url {| cache := "no-store" |})
                (fun res => if negb (ok res) then Fail (Error msg) else json res))
  = match server url {| cache := "no-store" |} with
    | NetworkError => inl (TypeError "fetch failed")
    | Responded res =>
        if ok res
        then match body res with
             | Some v => inr v
             | None => inl (SyntaxError "Unexpected token in JSON")
             end
        else inl (Error msg)
    end.
Proof.
  rewrite run_abind, run_fetch.
  destruct (server _ _) as [| res]; [reflexivity |].
  destruct (ok res); simpl; [| reflexivity].
  unfold json. destruct (body res); reflexivity.
Qed.

Lemma requests_request (server : string -> RequestInit -> @FetchResult num)
    (url msg : string) :
  requests server (abind (fetch url {| cache := "no-store" |})
                     (fun res => if negb (ok res) then Fail (Error msg) else json res))
  = [(url, {| cache := "no-store" |})].
Proof.
  rewrite requests_abind, run_fetch. simpl.
  destruct (server _ _) as [| res]; [reflexivity |].
  destruct (ok res); simpl; [| reflexivity]. rewrite requests_json. reflexivity.
Qed.

Lemma run_fetchDeals (server : string -> RequestInit -> @FetchResult num)
    (base category : option string) (sort : option Sort) :
  run server (fetchDeals base category sort)
  = match new_URL (API_BASE base ++ "/api/deals") with
    | inl msg => inl (TypeError msg)
    | inr url =>
        match server (URL_toString (fetchDeals_url url category sort))
                {| cache := "no-store" |} with
        | NetworkError => inl (TypeError "fetch failed")
        | Responded res =>
            if ok res
            then match body res with
                 | Some v => inr v
                 | None => inl (SyntaxError "Unexpected token in JSON")
                 end
            else inl (Error "Failed to load deals")
        end
    end.
Proof.
  unfold fetchDeals.
  destruct (new_URL (API_BASE base ++ "/api/deals")) as [msg | url]; [reflexivity |].
  apply run_request.
Qed.

Lemma requests_fetchDeals (server : string -> RequestInit -> @FetchResult num)
    (base category : option string) (sort : option Sort) :
  requests server (fetchDeals base category sort)
  = match new_URL (API_BASE base ++ "/api/deals") with
    | inl _ => []
    | inr url =>
        [(URL_toString (fetchDeals_url url category sort), {| cache := "no-store" |})]
    end.
Proof.
  unfold fetchDeals.
  destruct (new_URL (API_BASE base ++ "/api/deals")) as [msg | url]; [reflexivity |].
  apply requests_request.
Qed.

Lemma run_fetchDeal (server : string -> RequestInit -> @FetchResult num)
    (base : option string) (asin : string) :
  run server (fetchDeal base asin)
  = match server (API_BASE base ++ "/api/deal/" ++ asin) {| cache := "no-store" |} with
    | NetworkError => inl (TypeError "fetch failed")
    | Responded res =>
        if ok res
        then match body res with
             | Some v => inr v
             | None => inl (SyntaxError "Unexpected token in JSON")
             end
        else inl (Error "Failed to load deal")
    end.
Proof. apply run_request. Qed.

Lemma requests_fetchDeal (server : string -> RequestInit -> @FetchResult num)
    (base : option string) (asin : string) :
  requests server (fetchDeal base asin)
  = [(API_BASE base ++ "/api/deal/" ++ asin, {| cache := "no-store" |})].
Proof. apply requests_request. Qed.

(** X1.  What [fetchDeals] gives is decided by the address of the
    endpoint and the one response to its request: where [new URL]
    rejects [API_BASE/api/deals] the call throws that TypeError whatever
    the server would answer; otherwise a rejected [fetch] is passed on,
    a status outside 200..299 throws [Error "Failed to load deals"]
    whatever the body holds, an ok response whose body is not JSON
    rejects with the parser's error, and an ok response with a JSON
    body returns it parsed. *)
Theorem fetchDeals_by_response (base : option string)
    (category : option string) (sort : option Sort)
    (server : string -> RequestInit -> @FetchResult num) :
  run server (fetchDeals base category sort)
  = match new_URL (API_BASE base ++ "/api/deals") with
    | inl msg => inl (TypeError msg)
    | inr url =>
        match server (URL_toString (fetchDeals_url url category sort))
                {| cache := "no-store" |} with
        | NetworkError => inl (TypeError "fetch failed")
        | Responded res =>
            if ok res
            then match body res with
                 | Some v => inr v
                 | None => inl (SyntaxError "Unexpected token in JSON")
                 end
            else inl (Error "Failed to load deals")
        end
    end.
Proof. apply run_fetchDeals. Qed.

(** X2.  Whatever the server answers, [fetchDeal] issues exactly one
    request and [fetchDeals] exactly one when [new URL] accepts the
    address of the endpoint and none when it throws; each request has
    [cache: "no-store"]: none is repeated after a failure and none is
    served from a cache. *)
Theorem client_single_uncached_request
    (base : option string) (category : option string) (sort : option Sort)
    (asin : string) (server : string -> RequestInit -> @FetchResult num) :
  requests server (fetchDeals base category sort)
  = match new_URL (API_BASE base ++ "/api/deals") with
    | inl _ => []
    | inr url =>
        [(URL_toString (fetchDeals_url url category sort), {| cache := "no-store" |})]
    end
  /\ requests server (fetchDeal base asin)
     = [(API_BASE base ++ "/api/deal/" ++ asin, {| cache := "no-store" |})].
Proof. split; [apply requests_fetchDeals | apply requests_fetchDeal]. Qed.

End ApiExtras.

(** ** The list pages: app/page.tsx and app/category/[slug]/page.tsx *)

Section EffLaws.
Import Js.

Lemma ret_mbind {A B} (a : A) (f : A -> Eff B) : (ret a ≫= f) = f a.
Proof.
  unfold mbind, Eff_bind, bind, ret. simpl.
  destruct (f a) as [l o]. reflexivity.
Qed.

Lemma mret_mbind {A B} (a : A) (f : A -> Eff B) : (mret a ≫= f) = f a.
Proof. apply ret_mbind. Qed.

Lemma get_object {num} (fields : list (string * value num)) (name : string) :
  get (VObj fields) name = ret (default VUndefined (assoc name fields)).
Proof. reflexivity. Qed.

Lemma mbind_ext {A B} (m : Eff A) (f g : A -> Eff B) :
  (forall a, f a = g a) -> (m ≫= f) = (m ≫= g).
Proof.
  intros Hfg. unfold mbind, Eff_bind, bind.
  destruct (outcome m) as [e | a]; [reflexivity |]. rewrite Hfg. reflexivity.
Qed.

Lemma outcome_mbind_returned {A B} (m : Eff A) (f : A -> Eff B) (a : A) :
  outcome m = inr a -> outcome (m ≫= f) = outcome (f a).
Proof. intros Hm. unfold mbind, Eff_bind, bind. rewrite Hm. reflexivity. Qed.

Lemma outcome_mbind_thrown {A B} (m : Eff A) (f : A -> Eff B) (e : exn) :
  outcome m = inl e -> outcome (m ≫= f) = inl e.
Proof. intros Hm. unfold mbind, Eff_bind, bind. rewrite Hm. reflexivity. Qed.

Lemma returns_mret {A} (a : A) : returns (mret a).
Proof. exists a. reflexivity. Qed.

Lemma returns_mbind {A B} (m : Eff A) (f : A -> Eff B) :
  returns m -> (forall a, outcome m = inr a -> returns (f a)) -> returns (m ≫= f).
Proof.
  intros [a Ha] Hf. destruct (Hf a Ha) as [b Hb].
  exists b. rewrite (outcome_mbind_returned _ _ _ Ha). exact Hb.
Qed.

Lemma returns_mbind_inv {A B} (m : Eff A) (f : A -> Eff B) :
  returns (m ≫= f) -> exists a, outcome m = inr a /\ returns (f a).
Proof.
  intros [b Hb]. apply outcome_mbind in Hb as (a & Ha & Hb).
  exists a. split; [exact Ha | exists b; exact Hb].
Qed.

(** [items.map(f)]: the results item by item, or the first throw. *)
Lemma outcome_mapM {A B} (f : A -> Eff B) (l : list A) (bs : list B) :
  outcome (mapM f l) = inr bs -> Forall2 (fun a b => outcome (f a) = inr b) l bs.
Proof.
  revert bs. induction l as [| a l IH]; simpl; intros bs Hbs.
  - injection Hbs as <-. constructor.
  - apply outcome_mbind in Hbs as (b & Hb & Hbs).
    apply outcome_mbind in Hbs as (bs' & Hbs' & Hbs).
    injection Hbs as <-. constructor; [exact Hb | apply IH, Hbs'].
Qed.

Lemma returns_mapM {A B} (f : A -> Eff B) (l : list A) :
  List.Forall (fun a => returns (f a)) l -> returns (mapM f l).
Proof.
  induction 1 as [| a l Ha _ IH]; simpl.
  - apply returns_mret.
  - apply returns_mbind; [exact Ha |]. intros b _.
    apply returns_mbind; [exact IH |]. intros bs _. apply returns_mret.
Qed.

Lemma mapM_throws {A B} (f : A -> Eff B) (l : list A) (x : A) (e : exn) :
  In x l -> outcome (f x) = inl e -> exists e', outcome (mapM f l) = inl e'.
Proof.
  intros Hin Hx. induction l as [| a l IH]; [destruct Hin |]. simpl.
  destruct (outcome (f a)) as [ea | b] eqn:Ha.
  - exists ea. apply outcome_mbind_thrown, Ha.
  - destruct Hin as [-> | Hin]; [congruence |].
    destruct (IH Hin) as [e' He']. exists e'.
    rewrite (outcome_mbind_returned _ _ _ Ha). apply outcome_mbind_thrown, He'.
Qed.

End EffLaws.

Section ListPages.
Context {num : Type} `{Js.JsNum num} `{Js.JsText}.
Import Js Pages.

Local Abbreviation value := (Js.value num).

Lemma items_of_array (fields : list (string * value)) (l : list value) :
  assoc "items" fields = Some (VArr l) -> items_of (VObj fields) = mret l.
Proof.
  intros Hl. unfold items_of. rewrite get_object, ret_mbind, Hl. reflexivity.
Qed.

Lemma items_of_falsy (fields : list (string * value)) :
  truthy (default VUndefined (assoc "items" fields)) = false ->
  items_of (VObj fields) = mret [].
Proof.
  intros Hf. unfold items_of. rewrite get_object, ret_mbind, Hf. reflexivity.
Qed.

Lemma Page_card_of_nullish (d : value) :
  nullish d = true -> exists e, outcome (Page_card d) = inl e.
Proof. destruct d; try discriminate; intros _; eexists; reflexivity. Qed.

Lemma CategoryPage_card_of_nullish (d : value) :
  nullish d = true -> exists e, outcome (CategoryPage_card d) = inl e.
Proof. destruct d; try discriminate; intros _; eexists; reflexivity. Qed.

(** X3.  Both list pages show one card per item of the payload, in the
    payload's order, each the card of its item; and they render whenever
    every item's card does. *)
Theorem list_pages_one_card_per_item (sort : Api.Sort) (slug : string)
    (fields : list (string * value)) (l : list value) :
  assoc "items" fields = Some (VArr l) ->
  (forall view, outcome (Page_view sort (VObj fields)) = inr view ->
     Forall2 (fun d c => outcome (Page_card d) = inr c) l (tv_cards view)
     /\ length (tv_cards view) = length l)
  /\ (forall view, outcome (CategoryPage_view slug (VObj fields)) = inr view ->
        Forall2 (fun d c => outcome (CategoryPage_card d) = inr c) l (cv_cards view)
        /\ length (cv_cards view) = length l)
  /\ (List.Forall (fun d => returns (Page_card d)) l ->
        returns (Page_view sort (VObj fields)))
  /\ (List.Forall (fun d => returns (CategoryPage_card d)) l ->
        returns (CategoryPage_view slug (VObj fields))).
Proof.
  intros Hl. unfold Page_view, CategoryPage_view.
  rewrite (items_of_array _ _ Hl), !mret_mbind.
  split; [| split; [| split]].
  - intros view Hview. apply outcome_mbind in Hview as (cards & Hcards & Hview).
    injection Hview as <-. simpl. apply outcome_mapM in Hcards.
    split; [exact Hcards |]. symmetry. eapply Forall2_length, Hcards.
  - intros view Hview. apply outcome_mbind in Hview as (cards & Hcards & Hview).
    injection Hview as <-. simpl. apply outcome_mapM in Hcards.
    split; [exact Hcards |]. symmetry. eapply Forall2_length, Hcards.
  - intros Hall. apply returns_mbind; [apply returns_mapM, Hall |].
    intros cards _. apply returns_mret.
  - intros Hall. apply returns_mbind; [apply returns_mapM, Hall |].
    intros cards _. apply returns_mret.
Qed.

(** X4.  A payload object whose [items] is absent, [null] or otherwise
    falsy renders as a page without cards, on both list pages; an
    [items] that is truthy but no array throws a TypeError, and so does
    a payload that is [null]. *)
Theorem list_pages_items_edge_cases (sort : Api.Sort) (slug : string)
    (fields : list (string * value)) :
  let items := default VUndefined (assoc "items" fields) in
  (truthy items = false ->
     (exists view, outcome (Page_view sort (VObj fields)) = inr view /\ tv_cards view = [])
     /\ outcome (CategoryPage_view slug (VObj fields))
        = inr {| cv_slug := slug; cv_cards := [] |})
  /\ (truthy items = true -> (forall l, items <> VArr l) ->
        outcome (Page_view sort (VObj fields))
        = inl (TypeError "items.map is not a function")
        /\ outcome (CategoryPage_view slug (VObj fields))
           = inl (TypeError "items.map is not a function"))
  /\ (exists msg, outcome (Page_view sort VNull) = inl (TypeError msg))
  /\ (exists msg, outcome (CategoryPage_view slug VNull) = inl (TypeError msg)).
Proof.
  intros items. split; [| split; [| split]].
  - intros Hf. unfold Page_view, CategoryPage_view.
    rewrite (items_of_falsy _ Hf), !mret_mbind. simpl.
    split; [eexists; split; reflexivity | reflexivity].
  - intros Ht Hna.
    assert (Hthrow : outcome (items_of (VObj fields))
                     = inl (TypeError "items.map is not a function")).
    { unfold items_of. rewrite get_object, ret_mbind.
      fold items. rewrite Ht. destruct items; try reflexivity.
      exfalso. eapply Hna. reflexivity. }
    unfold Page_view, CategoryPage_view.
    split; apply outcome_mbind_thrown, Hthrow.
  - eexists. reflexivity.
  - eexists. reflexivity.
Qed.

(** X5.  One item whose card throws makes the whole list page throw: no
    partial list is shown.  An item that is [null] is such an item. *)
Theorem list_pages_fail_on_one_bad_item (sort : Api.Sort) (slug : string)
    (fields : list (string * value)) (l : list value) (d : value) :
  assoc "items" fields = Some (VArr l) -> In d l ->
  ((exists e, outcome (Page_card d) = inl e) ->
     exists e, outcome (Page_view sort (VObj fields)) = inl e)
  /\ ((exists e, outcome (CategoryPage_card d) = inl e) ->
        exists e, outcome (CategoryPage_view slug (VObj fields)) = inl e)
  /\ (nullish d = true ->
        (exists e, outcome (Page_view sort (VObj fields)) = inl e)
        /\ (exists e, outcome (CategoryPage_view slug (VObj fields)) = inl e)).
Proof.
  intros Hl Hin. unfold Page_view, CategoryPage_view.
  rewrite (items_of_array _ _ Hl), !mret_mbind.
  assert (Htop : (exists e, outcome (Page_card d) = inl e) ->
                 exists e, outcome (mapM Page_card l ≫= (fun cards =>
                   mret {| tv_note :=
                             if Sort_eqb sort Api.hot
                             then "Sorted by Hot Score (deal quality + demand)."
                             else "Sorted by Deal Score (discount strength + price stability).";
                           tv_weight_hot := if Sort_eqb sort Api.hot then 700 else 400;
                           tv_weight_deal := if Sort_eqb sort Api.deal then 700 else 400;
                           tv_cards := cards |})) = inl e).
  { intros [e He]. destruct (mapM_throws _ _ _ _ Hin He) as [e' He'].
    exists e'. apply outcome_mbind_thrown, He'. }
  assert (Hcat : (exists e, outcome (CategoryPage_card d) = inl e) ->
                 exists e, outcome (mapM CategoryPage_card l ≫= (fun cards =>
                   mret {| cv_slug := slug; cv_cards := cards |})) = inl e).
  { intros [e He]. destruct (mapM_throws _ _ _ _ Hin He) as [e' He'].
    exists e'. apply outcome_mbind_thrown, He'. }
  split; [exact Htop |]. split; [exact Hcat |].
  intros Hn. split.
  - apply Htop, Page_card_of_nullish, Hn.
  - apply Hcat, CategoryPage_card_of_nullish, Hn.
Qed.

End ListPages.

(** ** The cards and the detail view *)

Section CardLaws.
Context {num : Type} `{Js.JsNum num} `{Js.JsText}.
Import Js Pages.

Local Abbreviation value := (Js.value num).

Lemma returns_ret {A} (a : A) : returns (ret a).
Proof. exists a. reflexivity. Qed.

Lemma scalar_VNum (n : num) : scalar (VNum n : value) = true.
Proof. reflexivity. Qed.

Lemma scalar_coalesce (a b : value) :
  scalar a = true -> scalar b = true -> scalar (coalesce a b) = true.
Proof. intros Ha Hb. unfold coalesce. destruct (nullish a); assumption. Qed.

Lemma scalar_field (fields : list (string * value)) (name : string) :
  flat fields = true -> scalar (default VUndefined (assoc name fields)) = true.
Proof.
  unfold flat. induction fields as [| [k v] rest IH]; simpl; [reflexivity |].
  intros Hf. apply andb_prop in Hf as [Hv Hrest].
  destruct (String.eqb k name); [exact Hv | exact (IH Hrest)].
Qed.

(** On a scalar the conversions return; an array or an object goes
    through ToPrimitive, which can throw. *)
Lemma returns_toString (v : value) : scalar v = true -> returns (toString v).
Proof. destruct v; try discriminate; intros _; eexists; reflexivity. Qed.

Lemma returns_toNumber (v : value) : scalar v = true -> returns (toNumber v).
Proof. destruct v; try discriminate; intros _; eexists; reflexivity. Qed.

Lemma returns_Math_round (v : value) : scalar v = true -> returns (Math_round v).
Proof. destruct v; try discriminate; intros _; eexists; reflexivity. Qed.

Lemma Math_round_number (a v : value) :
  outcome (Math_round a) = inr v -> exists x, v = VNum x.
Proof.
  intros Hv. apply outcome_bind in Hv as (x & _ & Hv).
  injection Hv as <-. eexists. reflexivity.
Qed.

Lemma mul_number (a b v : value) :
  outcome (mul a b) = inr v -> exists x, v = VNum x.
Proof.
  intros Hv. apply outcome_bind in Hv as (x & _ & Hv).
  apply outcome_bind in Hv as (y & _ & Hv).
  injection Hv as <-. eexists. reflexivity.
Qed.

Lemma returns_rounded (v : value) : scalar v = true -> returns (rounded v).
Proof.
  intros Hv. unfold rounded. apply returns_mbind; [apply returns_Math_round, Hv |].
  intros r Hr. apply Math_round_number in Hr as [x ->]. eexists. reflexivity.
Qed.

Lemma returns_mul (a b : value) :
  scalar a = true -> scalar b = true -> returns (mul a b).
Proof. destruct a, b; try discriminate; intros _ _; eexists; reflexivity. Qed.

Lemma returns_rounded_product (a b p : value) :
  outcome (mul a b) = inr p -> returns (rounded p).
Proof. intros Hp. apply mul_number in Hp as [x ->]. apply returns_rounded. reflexivity. Qed.

Lemma returns_pct (x : value) : scalar x = true -> returns (pct x).
Proof.
  intros Hx. unfold pct. destruct (is_null x || is_undefined x); [apply returns_mret |].
  apply returns_mbind; [apply returns_mul; [exact Hx | reflexivity] |]. intros p Hp.
  apply mul_number in Hp as [y ->].
  apply returns_mbind; [apply returns_Math_round; reflexivity |]. intros r Hr.
  apply Math_round_number in Hr as [z ->].
  apply returns_mbind; [apply returns_toString; reflexivity |]. intros t _.
  apply returns_mret.
Qed.

Lemma outcome_Number (a v : value) :
  outcome (Number a) = inr v -> exists x, v = VNum x.
Proof.
  destruct a; simpl; intros Hv;
    first [ injection Hv as <-; eexists; reflexivity
          | apply outcome_bind in Hv as (x & _ & Hv); injection Hv as <-;
            eexists; reflexivity ].
Qed.

Lemma returns_Number (a : value) : scalar a = true -> returns (Number a).
Proof. destruct a; try discriminate; intros _; eexists; reflexivity. Qed.

Lemma returns_toFixed_number (x : num) (digits : nat) : returns (toFixed (VNum x) digits).
Proof. eexists. reflexivity. Qed.

(** [(d.name ?? 0).toFixed(2)] returns exactly on a number or a missing
    value. *)
Lemma toFixed_default_returns (fields : list (string * value)) (name : string) :
  returns (toFixed (coalesce (default VUndefined (assoc name fields)) (VNum n0)) 2)
  <-> number_or_missing fields name = true.
Proof.
  unfold number_or_missing, returns.
  destruct (assoc name fields) as [[] |]; simpl; split; intros Hx;
    first [ reflexivity | discriminate Hx | eexists; reflexivity
          | destruct Hx as [? Hs]; discriminate Hs ].
Qed.

Lemma present_nullish (v : value) : present v = negb (nullish v).
Proof. destruct v; reflexivity. Qed.

Lemma coalesce_nullish (a b : value) : nullish a = true -> coalesce a b = b.
Proof. intros Ha. unfold coalesce. rewrite Ha. reflexivity. Qed.

Lemma returns_DealPage_demand (fields : list (string * value)) :
  flat fields = true -> returns (DealPage_demand (VObj fields)).
Proof.
  intros Hflat. unfold DealPage_demand. rewrite !get_object.
  rewrite ret_mbind.
  apply returns_mbind; [apply returns_rounded, scalar_field, Hflat |]. intros dt _.
  rewrite ret_mbind. apply returns_mbind.
  { destruct (truthy _); [| apply returns_mret].
    apply returns_mbind; [apply returns_rounded, scalar_field, Hflat |].
    intros t _. apply returns_mret. }
  intros rt _. rewrite ret_mbind. apply returns_mbind.
  { destruct (truthy _); [| apply returns_mret].
    apply returns_mbind; [apply returns_Number, scalar_field, Hflat |]. intros n Hn.
    apply outcome_Number in Hn as [x ->].
    apply returns_mbind; [apply returns_toFixed_number |]. intros t _. apply returns_mret. }
  intros rat _. rewrite ret_mbind. apply returns_mbind.
  { destruct (truthy _); [| apply returns_mret].
    apply returns_mbind; [apply returns_toString, scalar_field, Hflat |].
    intros t _. apply returns_mret. }
  intros rv _. apply returns_mret.
Qed.

End CardLaws.

(** A goal on scalars: fields of a flat record, defaults, numbers. *)
Ltac scalar_goal :=
  repeat first
    [ apply scalar_VNum
    | apply scalar_field; assumption
    | apply scalar_coalesce ].

(** One statement of a render that returns. *)
Ltac returns_step :=
  lazymatch goal with
  | |- returns (if ?c then _ else _) => destruct c eqn:?
  | |- returns (Js.ret _ ≫= _) => rewrite ret_mbind
  | |- returns (_ ≫= _) => apply returns_mbind; [ | intros ? ? ]
  | |- returns (mret _) => apply returns_mret
  | |- returns (Js.ret _) => apply returns_ret
  | |- returns (Js.toString _) => apply returns_toString; solve [ scalar_goal ]
  | |- returns (Pages.rounded _) =>
      first [ apply returns_rounded; solve [ scalar_goal ]
            | eapply returns_rounded_product; eassumption ]
  | |- returns (Js.mul _ _) => apply returns_mul; solve [ scalar_goal ]
  | |- returns (Pages.pct _) => apply returns_pct; solve [ scalar_goal ]
  | |- returns (Js.toFixed _ _) => assumption
  | |- returns (Pages.DealPage_demand _) => apply returns_DealPage_demand; assumption
  end.

(** One statement back from a render that returned. *)
Ltac returned_step H :=
  first
    [ rewrite ret_mbind in H
    | let a := fresh "a" in
      let Ha := fresh "Ha" in
      apply returns_mbind_inv in H as (a & Ha & H) ].

Section CardsRender.
Context {num : Type} `{Js.JsNum num} `{Js.JsText}.
Import Js Pages.

Local Abbreviation value := (Js.value num).

Lemma toFixed_default_returned (fields : list (string * value)) (name s : string) :
  outcome (toFixed (coalesce (default VUndefined (assoc name fields)) (VNum n0)) 2) = inr s ->
  number_or_missing fields name = true.
Proof. intros Hs. apply toFixed_default_returns. exists s. exact Hs. Qed.

Lemma Page_card_returns (fields : list (string * value)) :
  flat fields = true ->
  returns (Page_card (VObj fields))
  <-> number_or_missing fields "price_current"
      && number_or_missing fields "price_median_90d" = true.
Proof.
  intros Hflat. unfold Page_card. rewrite !get_object. split.
  - intros Hr. repeat returned_step Hr.
    apply andb_true_intro. split; eapply toFixed_default_returned; eassumption.
  - intros Hok. apply andb_prop in Hok as [Hp Hm].
    apply toFixed_default_returns in Hp, Hm.
    repeat returns_step.
Qed.

Lemma CategoryPage_card_returns (fields : list (string * value)) :
  flat fields = true ->
  returns (CategoryPage_card (VObj fields))
  <-> number_or_missing fields "price_current"
      && number_or_missing fields "price_median_90d" = true.
Proof.
  intros Hflat. unfold CategoryPage_card. rewrite !get_object. split.
  - intros Hr. repeat returned_step Hr.
    apply andb_true_intro. split; eapply toFixed_default_returned; eassumption.
  - intros Hok. apply andb_prop in Hok as [Hp Hm].
    apply toFixed_default_returns in Hp, Hm.
    repeat returns_step.
Qed.

Lemma DealPage_view_returns (fields : list (string * value)) :
  flat fields = true ->
  returns (DealPage_view (VObj fields))
  <-> number_or_missing fields "price_current"
      && number_or_missing fields "price_median_90d" = true.
Proof.
  intros Hflat. unfold DealPage_view. rewrite !get_object. split.
  - intros Hr. repeat returned_step Hr.
    apply andb_true_intro. split; eapply toFixed_default_returned; eassumption.
  - intros Hok. apply andb_prop in Hok as [Hp Hm].
    apply toFixed_default_returns in Hp, Hm.
    repeat returns_step.
Qed.

Lemma Page_card_children (fields : list (string * value)) (card : TopCard) :
  flat fields = true -> outcome (Page_card (VObj fields)) = inr card ->
  scalar (tc_title card) = true /\ scalar (tc_amazon_url card) = true.
Proof.
  intros Hflat. unfold Page_card. rewrite !get_object. intros Hcard.
  repeat first
    [ rewrite ret_mbind in Hcard
    | apply outcome_mbind in Hcard as (? & _ & Hcard) ].
  injection Hcard as <-. simpl. split; apply scalar_field, Hflat.
Qed.

Lemma CategoryPage_card_children (fields : list (string * value)) (card : CategoryCard) :
  flat fields = true -> outcome (CategoryPage_card (VObj fields)) = inr card ->
  scalar (cc_title card) = true /\ scalar (cc_amazon_url card) = true.
Proof.
  intros Hflat. unfold CategoryPage_card. rewrite !get_object. intros Hcard.
  repeat first
    [ rewrite ret_mbind in Hcard
    | apply outcome_mbind in Hcard as (? & _ & Hcard) ].
  injection Hcard as <-. simpl. split; apply scalar_field, Hflat.
Qed.

Lemma DealPage_view_children (fields : list (string * value)) (view : DealView) :
  flat fields = true -> outcome (DealPage_view (VObj fields)) = inr view ->
  scalar (dv_title view) = true /\ scalar (dv_category view) = true
  /\ scalar (dv_amazon_url view) = true.
Proof.
  intros Hflat. unfold DealPage_view. rewrite !get_object. intros Hview.
  repeat first
    [ rewrite ret_mbind in Hview
    | apply outcome_mbind in Hview as (? & _ & Hview) ].
  injection Hview as <-. simpl. repeat split; apply scalar_field, Hflat.
Qed.

(** X6.  On a record whose properties are all scalars ([null],
    booleans, numbers, strings), the card of the top page, the card of
    the category page and the detail view each return exactly when
    [price_current] and [price_median_90d] are numbers or missing
    ([null], [undefined] or absent): every other property may be
    missing or any scalar, and a price of another type throws.  What
    they hand on as a child or an address ([title], [category],
    [amazon_url]) is then a scalar too, never an object. *)
Theorem record_renders_iff_prices_are_numbers (fields : list (string * value)) :
  flat fields = true ->
  let prices_ok := number_or_missing fields "price_current"
                   && number_or_missing fields "price_median_90d" in
  (returns (Page_card (VObj fields)) <-> prices_ok = true)
  /\ (returns (CategoryPage_card (VObj fields)) <-> prices_ok = true)
  /\ (returns (DealPage_view (VObj fields)) <-> prices_ok = true)
  /\ (forall card, outcome (Page_card (VObj fields)) = inr card ->
        scalar (tc_title card) = true /\ scalar (tc_amazon_url card) = true)
  /\ (forall card, outcome (CategoryPage_card (VObj fields)) = inr card ->
        scalar (cc_title card) = true /\ scalar (cc_amazon_url card) = true)
  /\ (forall view, outcome (DealPage_view (VObj fields)) = inr view ->
        scalar (dv_title view) = true /\ scalar (dv_category view) = true
        /\ scalar (dv_amazon_url view) = true).
Proof.
  intros Hflat prices_ok. split; [| split; [| split; [| split; [| split]]]].
  - apply Page_card_returns, Hflat.
  - apply CategoryPage_card_returns, Hflat.
  - apply DealPage_view_returns, Hflat.
  - intros card. apply Page_card_children, Hflat.
  - intros card. apply CategoryPage_card_children, Hflat.
  - intros view. apply DealPage_view_children, Hflat.
Qed.

End CardsRender.

Section Defaults.
Context {num : Type} `{Js.JsNum num} `{Js.JsText}.
Import Js Pages.

Local Abbreviation value := (Js.value num).

Lemma coalesce_missing (fields : list (string * value)) (name : string) (b : value) :
  missing fields name = true ->
  coalesce (default VUndefined (assoc name fields)) b = b.
Proof. intros Hm. apply coalesce_nullish, Hm. Qed.

Lemma coalesce_number (n : num) (b : value) : coalesce (VNum n) b = VNum n.
Proof. reflexivity. Qed.

Lemma coalesce_inner_missing (fields : list (string * value)) (name : string) (a : value) :
  missing fields name = true ->
  coalesce (coalesce a (default VUndefined (assoc name fields))) (VNum n0)
  = coalesce (coalesce a (VNum n0)) (VNum n0).
Proof.
  intros Hm. unfold missing in Hm.
  destruct a; simpl; try reflexivity; apply coalesce_nullish, Hm.
Qed.

End Defaults.

(** Two renders that differ in one defaulted field, statement by
    statement. *)
Ltac same_render Hmiss :=
  rewrite !get_object; simpl Js.assoc; simpl default;
  repeat first
    [ progress rewrite ?ret_mbind, ?(coalesce_missing _ _ _ Hmiss),
        ?(coalesce_inner_missing _ _ _ Hmiss), ?coalesce_number
    | lazymatch goal with
      | |- ?x = ?y => constr_eq x y; reflexivity
      end
    | lazymatch goal with
      | |- (?m ≫= _) = (?m' ≫= _) => constr_eq m m'; apply mbind_ext; intros ?
      end ].

Section DefaultsRender.
Context {num : Type} `{Js.JsNum num} `{Js.JsText}.
Import Js Pages.

Local Abbreviation value := (Js.value num).

(** X7.  A numeric field that is missing is shown as if it were 0: on
    the detail view and the category card for the two prices, the
    discount, the confidence and the score, and on the card of the top
    page for the prices, the confidence and the score, the record with
    the field missing renders to the very same result as the record
    with the field set to 0. *)
Theorem missing_number_renders_as_zero (fields : list (string * value)) (name : string) :
  missing fields name = true ->
  (In name ["price_current"; "price_median_90d"; "discount_pct_90d"; "confidence"; "score"] ->
     DealPage_view (VObj ((name, VNum n0) :: fields)) = DealPage_view (VObj fields)
     /\ CategoryPage_card (VObj ((name, VNum n0) :: fields)) = CategoryPage_card (VObj fields))
  /\ (In name ["price_current"; "price_median_90d"; "confidence"; "score"] ->
        Page_card (VObj ((name, VNum n0) :: fields)) = Page_card (VObj fields)).
Proof.
  intros Hmiss. split.
  - intros Hin. simpl in Hin.
    destruct Hin as [<- | [<- | [<- | [<- | [<- | []]]]]]; split.
    all: first [ unfold DealPage_view, DealPage_demand; same_render Hmiss
               | unfold CategoryPage_card; same_render Hmiss ].
  - intros Hin. simpl in Hin.
    destruct Hin as [<- | [<- | [<- | [<- | []]]]];
      unfold Page_card; same_render Hmiss.
Qed.

End DefaultsRender.

Section DashAndBlocks.
Context {num : Type} `{Js.JsNum num} `{Js.JsText}.
Import Js Pages.

Local Abbreviation value := (Js.value num).

Lemma percent_is_no_dash (t : string) : t ++ "%" <> "-".
Proof.
  destruct t as [| c t]; simpl; [discriminate |].
  intros Heq. injection Heq as _ Ht. destruct t; discriminate Ht.
Qed.

Lemma nullish_cases (x : value) : nullish x = is_null x || is_undefined x.
Proof. destruct x; reflexivity. Qed.

Lemma pct_returned (x : value) (s : string) :
  outcome (pct x) = inr s ->
  (s = "-" <-> nullish x = true) /\ (nullish x = false -> exists t, s = t ++ "%").
Proof.
  unfold pct. rewrite nullish_cases.
  destruct (is_null x || is_undefined x) eqn:E.
  - intros [= <-]. split; [split; reflexivity | discriminate].
  - intros Hs.
    apply outcome_mbind in Hs as (p & _ & Hs).
    apply outcome_mbind in Hs as (r & _ & Hs).
    apply outcome_mbind in Hs as (t & _ & Hs).
    injection Hs as <-. split.
    + split; [| discriminate]. intros Hs. exfalso. exact (percent_is_no_dash _ Hs).
    + intros _. exists t. reflexivity.
Qed.

(** X8.  The text that [pct] returns is "-" exactly when its argument
    is [null] or [undefined], and ends in a percent sign otherwise,
    zero included.  It returns on every scalar, so on all of [number |
    null], the type of its parameter; an array or object that came in
    the payload instead goes through ToPrimitive at [x * 100], which
    throws where the object has a ["toString"] key of its own. *)
Theorem pct_dash_iff_missing (x : value) :
  (forall s, outcome (pct x) = inr s ->
     (s = "-" <-> nullish x = true) /\ (nullish x = false -> exists t, s = t ++ "%"))
  /\ (scalar x = true -> returns (pct x))
  /\ (forall fields, x = VObj fields -> assoc "toString" fields <> None ->
        exists msg, outcome (pct x) = inl (TypeError msg)).
Proof.
  split; [| split].
  - apply pct_returned.
  - apply returns_pct.
  - intros fields -> Hkey. unfold pct. simpl.
    destruct (assoc "toString" fields) eqn:E; [| contradiction].
    unfold mbind, Eff_bind, bind, mul, bind, toNumber, bind. simpl. rewrite E. simpl.
    eexists. reflexivity.
Qed.

Lemma optional_block (X : value) (m : Eff string) (a : option string) :
  outcome (if present X then t ← m; mret (Some t) else mret None) = inr a ->
  (a = None <-> nullish X = true).
Proof.
  rewrite present_nullish. destruct (nullish X); simpl.
  - intros [= <-]. split; reflexivity.
  - intros Ha. apply outcome_mbind in Ha as (t & _ & Ha). injection Ha as <-.
    split; discriminate.
Qed.

Lemma optional_demand_block (X : value) (m : Eff DemandBlock) (a : option DemandBlock) :
  outcome (if present X then b ← m; mret (Some b) else mret None) = inr a ->
  (a = None <-> nullish X = true).
Proof.
  rewrite present_nullish. destruct (nullish X); simpl.
  - intros [= <-]. split; reflexivity.
  - intros Ha. apply outcome_mbind in Ha as (t & _ & Ha). injection Ha as <-.
    split; discriminate.
Qed.

Lemma optional_segment (X : value) (m : Eff string) (s : string) :
  (forall t, outcome m = inr t -> t <> "") ->
  outcome (if truthy X then m else mret "") = inr s ->
  (s = "" <-> truthy X = false).
Proof.
  intros Hm. destruct (truthy X); simpl.
  - intros Hs. split; [| discriminate]. intros ->. exfalso. exact (Hm _ Hs eq_refl).
  - intros [= <-]. split; reflexivity.
Qed.

(** X9.  On the detail view the Hot Score line is left out exactly when
    [hot_score] is missing, and the demand block exactly when
    [demand_score] is missing; inside the demand block the rank, rating
    and review segments are left out exactly when their field is falsy,
    so also when it is 0. *)
Theorem DealPage_optional_parts (fields : list (string * value)) (view : DealView) :
  outcome (DealPage_view (VObj fields)) = inr view ->
  (dv_hot view = None <-> missing fields "hot_score" = true)
  /\ (dv_demand view = None <-> missing fields "demand_score" = true)
  /\ forall block, dv_demand view = Some block ->
       (db_rank block = ""
        <-> truthy (default VUndefined (assoc "sales_rank_current" fields)) = false)
       /\ (db_rating block = ""
           <-> truthy (default VUndefined (assoc "rating" fields)) = false)
       /\ (db_reviews block = ""
           <-> truthy (default VUndefined (assoc "review_count" fields)) = false).
Proof.
  unfold DealPage_view. rewrite !get_object. intros Hview.
  repeat first
    [ rewrite ret_mbind in Hview
    | let a := fresh "a" in
      let Ha := fresh "Ha" in
      apply outcome_mbind in Hview as (a & Ha & Hview) ].
  injection Hview as <-. simpl.
  match goal with
  | Hh : outcome (if present _ then _ ≫= (fun t => mret (Some t)) else mret None) = inr ?h,
    Hd : outcome (if present _ then DealPage_demand _ ≫= _ else mret None) = inr ?d |- _ =>
      pose proof (optional_block _ _ _ Hh) as Hhot;
      pose proof (optional_demand_block _ _ _ Hd) as Hdem;
      rename Hd into Hblock
  end.
  split; [exact Hhot |]. split; [exact Hdem |].
  intros block ->.
  destruct (present (default VUndefined (assoc "demand_score" fields))); [| discriminate].
  apply outcome_mbind in Hblock as (b & Hb & Hblock). injection Hblock as <-.
  unfold DealPage_demand in Hb. rewrite !get_object in Hb.
  repeat first
    [ rewrite ret_mbind in Hb
    | let a := fresh "a" in
      let Ha := fresh "Ha" in
      apply outcome_mbind in Hb as (a & Ha & Hb) ].
  injection Hb as <-. simpl.
  repeat match goal with
         | Hseg : outcome (if truthy _ then _ else mret "") = inr _ |- _ =>
             apply optional_segment in Hseg;
             [| intros t Ht;
                repeat (let x := fresh "x" in
                        apply outcome_mbind in Ht as (x & _ & Ht));
                injection Ht as <-; discriminate ]
         end.
  split; [assumption |]. split; assumption.
Qed.

End DashAndBlocks.

(** ** The pages as callers of the client *)

Section PageRequests.
Context {num : Type} `{Js.JsNum num} `{Js.JsText} `{Api.UrlApi}.
Import Js Api Pages.

Local Abbreviation value := (Js.value num).

Lemma requests_lift {A} (server : string -> RequestInit -> @FetchResult num) (m : Eff A) :
  requests server (lift (num := num) m) = [].
Proof. unfold lift. destruct (outcome m); reflexivity. Qed.

(** A page is its client call followed by its render, which asks
    nothing of the server. *)
Lemma requests_page {D V} (server : string -> RequestInit -> @FetchResult num)
    (m : @Async num D) (render : D -> Eff V) :
  requests server (abind m (fun d => lift (render d))) = requests server m.
Proof.
  rewrite requests_abind.
  destruct (run server m); [| rewrite requests_lift]; apply app_nil_r.
Qed.

Lemma run_page {D V} (server : string -> RequestInit -> @FetchResult num)
    (m : @Async num D) (render : D -> Eff V) :
  run server (abind m (fun d => lift (render d)))
  = match run server m with
    | inl e => inl e
    | inr d => outcome (render d)
    end.
Proof. rewrite run_abind. destruct (run server m); [reflexivity | apply run_lift]. Qed.

Lemma requests_Page (server : string -> RequestInit -> @FetchResult num)
    (base : option string) (searchParams : option (option string)) :
  requests server (Page base searchParams)
  = requests server (fetchDeals base None (Some (Page_sort searchParams))).
Proof. apply requests_page. Qed.

Lemma requests_CategoryPage (server : string -> RequestInit -> @FetchResult num)
    (base : option string) (slug : string) :
  requests server (CategoryPage base slug)
  = requests server (fetchDeals base (Some slug) None).
Proof. apply requests_page. Qed.

Lemma requests_DealPage (server : string -> RequestInit -> @FetchResult num)
    (base : option string) (asin : string) :
  requests server (DealPage base asin)
  = [(API_BASE base ++ "/api/deal/" ++ asin, {| cache := "no-store" |})].
Proof.
  unfold DealPage, mbind, Async_bind. rewrite requests_page. apply requests_fetchDeal.
Qed.

Lemma fetchDeals_url_params (url : URL) (category : option string) (sort : option Sort) :
  Api.searchParams url = [] ->
  Api.searchParams (fetchDeals_url url category sort)
  = ([("limit", "100"); ("sort", Sort_str (default hot sort))]
     ++ match category with
        | Some c => if String.eqb c "" then [] else [("category", c)]
        | None => []
        end)%list.
Proof.
  intros Hq. unfold fetchDeals_url. rewrite Hq.
  destruct category as [c |]; [| reflexivity].
  destruct (String.eqb c ""); reflexivity.
Qed.

(** X10.  Rendering a page issues at most one request, with
    [cache: "no-store"], whatever comes back and however many items the
    payload holds: the detail page asks the detail endpoint of its asin
    once; the top page and the category page ask the list endpoint once
    when [new URL] accepts its address, and nothing when it throws. *)
Theorem pages_single_request (base : option string)
    (searchParams : option (option string)) (slug asin : string)
    (server : string -> RequestInit -> @FetchResult num) :
  requests server (Page base searchParams)
  = match new_URL (API_BASE base ++ "/api/deals") with
    | inl _ => []
    | inr url =>
        [(URL_toString (fetchDeals_url url None (Some (Page_sort searchParams))),
          {| cache := "no-store" |})]
    end
  /\ requests server (CategoryPage base slug)
     = match new_URL (API_BASE base ++ "/api/deals") with
       | inl _ => []
       | inr url =>
           [(URL_toString (fetchDeals_url url (Some slug) None), {| cache := "no-store" |})]
       end
  /\ requests server (DealPage base asin)
     = [(API_BASE base ++ "/api/deal/" ++ asin, {| cache := "no-store" |})].
Proof.
  split; [| split].
  - rewrite requests_Page. apply requests_fetchDeals.
  - rewrite requests_CategoryPage. apply requests_fetchDeals.
  - apply requests_DealPage.
Qed.

(** X11.  What the list pages ask of the endpoint, once [new URL] has
    accepted its address: the request of the category page carries
    [sort=hot], [limit=100] and its slug as [category], except that an
    empty slug sets no filter; the request of the top page carries
    [limit=100] and the chosen [sort], and the page sets no [category]:
    that name is as the base had it.  With a base without query, as the
    default, the two queries are these pairs and nothing else. *)
Theorem list_pages_queries (base : option string)
    (searchParams : option (option string)) (slug : string)
    (server : string -> RequestInit -> @FetchResult num) (url : URL) :
  new_URL (API_BASE base ++ "/api/deals") = inr url ->
  let top := fetchDeals_url url None (Some (Page_sort searchParams)) in
  let cat := fetchDeals_url url (Some slug) None in
  requests server (Page base searchParams)
  = [(URL_toString top, {| cache := "no-store" |})]
  /\ requests server (CategoryPage base slug)
     = [(URL_toString cat, {| cache := "no-store" |})]
  /\ sp_get "limit" (Api.searchParams cat) = Some "100"
  /\ sp_get "sort" (Api.searchParams cat) = Some "hot"
  /\ sp_get "category" (Api.searchParams cat)
     = (if String.eqb slug "" then sp_get "category" (Api.searchParams url) else Some slug)
  /\ sp_get "limit" (Api.searchParams top) = Some "100"
  /\ sp_get "sort" (Api.searchParams top) = Some (Sort_str (Page_sort searchParams))
  /\ sp_get "category" (Api.searchParams top) = sp_get "category" (Api.searchParams url)
  /\ (Api.searchParams url = [] ->
        Api.searchParams top = [("limit", "100"); ("sort", Sort_str (Page_sort searchParams))]
        /\ Api.searchParams cat
           = ([("limit", "100"); ("sort", "hot")]
              ++ (if String.eqb slug "" then [] else [("category", slug)]))%list).
Proof.
  intros Hurl top cat. subst top cat.
  split; [| split; [| split; [| split; [| split; [| split; [| split; [| split]]]]]]].
  - rewrite requests_Page, requests_fetchDeals, Hurl. reflexivity.
  - rewrite requests_CategoryPage, requests_fetchDeals, Hurl. reflexivity.
  - apply fetchDeals_url_limit.
  - apply (fetchDeals_url_sort url (Some slug) None).
  - apply (fetchDeals_url_category url (Some slug) None).
  - apply fetchDeals_url_limit.
  - apply (fetchDeals_url_sort url None (Some (Page_sort searchParams))).
  - apply (fetchDeals_url_category url None (Some (Page_sort searchParams))).
  - intros Hq. rewrite !(fetchDeals_url_params _ _ _ Hq). split; reflexivity.
Qed.

(** X12.  What a page gives is decided by the address of its endpoint
    and the response to its one request.  On the detail page, and on
    the list pages once [new URL] has accepted the address of the list
    endpoint, a rejected fetch, a status outside 200..299 ("Failed to
    load deals" on the list pages, "Failed to load deal" on the detail
    page) and a body that is not JSON make the page throw that error,
    and on an ok JSON response the page is the render of that payload,
    its own throw included; where [new URL] rejects the address, the
    list pages throw its TypeError whatever the server would answer. *)
Theorem pages_by_response (base : option string)
    (searchParams : option (option string)) (slug asin : string)
    (server : string -> RequestInit -> @FetchResult num) :
  let answer (url : string) (failed : string) {V} (render : value -> Eff V) :=
    match server url {| cache := "no-store" |} with
    | NetworkError => inl (TypeError "fetch failed")
    | Responded res =>
        if ok res
        then match body res with
             | Some v => outcome (render v)
             | None => inl (SyntaxError "Unexpected token in JSON")
             end
        else inl (Error failed)
    end in
  match new_URL (API_BASE base ++ "/api/deals") with
  | inl msg =>
      run server (Page base searchParams) = inl (TypeError msg)
      /\ run server (CategoryPage base slug) = inl (TypeError msg)
  | inr url =>
      run server (Page base searchParams)
      = answer (URL_toString (fetchDeals_url url None (Some (Page_sort searchParams))))
          "Failed to load deals" (Page_view (Page_sort searchParams))
      /\ run server (CategoryPage base slug)
         = answer (URL_toString (fetchDeals_url url (Some slug) None))
             "Failed to load deals" (CategoryPage_view slug)
  end
  /\ run server (DealPage base asin)
     = answer (API_BASE base ++ "/api/deal/" ++ asin) "Failed to load deal" DealPage_view.
Proof.
  intros answer. subst answer. cbv beta.
  unfold Page, CategoryPage, DealPage, mbind, Async_bind.
  rewrite !run_page, !run_fetchDeals, run_fetchDeal.
  split.
  - destruct (new_URL (API_BASE base ++ "/api/deals")) as [msg | url]; [split; reflexivity |].
    split.
    + destruct (server _ _) as [| res]; [reflexivity |].
      destruct (ok res); [| reflexivity]. destruct (body res); reflexivity.
    + destruct (server _ _) as [| res]; [reflexivity |].
      destruct (ok res); [| reflexivity]. destruct (body res); reflexivity.
  - destruct (server _ _) as [| res]; [reflexivity |].
    destruct (ok res); [| reflexivity]. destruct (body res); reflexivity.
Qed.

End PageRequests.


(** ** backend/run_all.ps1: the wait loop and the order of the commands *)

Section RunAllExtras.
Import RunAll.

Lemma probes_snoc (n : nat) (e : gmap string string) :
  ([(probe_cmd, e)] ++ probes n e)%list = probes (S n) e.
Proof. reflexivity. Qed.

(** The loop leaves at the first attempt that is accepted. *)
Lemma wait_postgres_ready (host : Host) (n : nat) :
  forall (left i : nat) (st : State),
    (n < left)%nat -> (i + n <= maxAttempts)%nat ->
    (forall j, (i <= j < i + n)%nat -> pg_accepts host j = false) ->
    pg_accepts host (i + n) = true ->
    wait_postgres host left i st
    = (inr tt, {| env := env st;
                  console := console st ++ ["Postgres is ready."];
                  spawned := spawned st ++ probes (S n) (env st) |}).
Proof.
  induction n as [| n IH]; intros left i st Hleft Hmax Hno Hyes.
  - destruct left as [| left]; [lia |].
    rewrite Nat.add_0_r in Hyes. simpl. unfold mbind, Script_bind, run_child. simpl.
    rewrite Hyes. reflexivity.
  - destruct left as [| left]; [lia |].
    simpl. unfold mbind, Script_bind, run_child. simpl.
    rewrite (Hno i) by lia.
    replace (i =? maxAttempts)%nat with false by (symmetry; apply Nat.eqb_neq; lia).
    rewrite (IH left (S i)); try lia.
    + simpl. rewrite <- app_assoc. reflexivity.
    + intros j Hj. apply Hno. lia.
    + replace (S i + n)%nat with (i + S n)%nat by lia. exact Hyes.
Qed.

(** Without an accepted attempt the loop throws at attempt 60. *)
Lemma wait_postgres_never (host : Host) :
  forall (left i : nat) (st : State),
    (1 <= i <= maxAttempts)%nat -> (maxAttempts - i < left)%nat ->
    (forall j, (i <= j <= maxAttempts)%nat -> pg_accepts host j = false) ->
    wait_postgres host left i st
    = (inl "Postgres not ready after 60 attempts.",
       {| env := env st; console := console st;
          spawned := spawned st ++ probes (S maxAttempts - i) (env st) |}).
Proof.
  induction left as [| left IH]; intros i st Hi Hleft Hno; [lia |].
  simpl. unfold mbind, Script_bind, run_child. simpl.
  rewrite (Hno i) by lia.
  destruct (Nat.eqb_spec i maxAttempts) as [-> | Hne].
  - reflexivity.
  - rewrite (IH (S i)); try lia.
    + simpl. rewrite <- app_assoc.
      replace (S maxAttempts - i)%nat with (S (maxAttempts - i))%nat by lia.
      reflexivity.
    + intros j Hj. apply Hno. lia.
Qed.

Lemma wait_postgres_first_ready (host : Host) (st : State) (k : nat) :
  first_ready host k ->
  wait_postgres host maxAttempts 1 st
  = (inr tt, {| env := env st;
                console := console st ++ ["Postgres is ready."];
                spawned := spawned st ++ probes k (env st) |}).
Proof.
  intros (Hk & Hyes & Hno).
  destruct k as [| n]; [lia |].
  apply (wait_postgres_ready host n maxAttempts 1 st); try lia.
  - intros j Hj. apply Hno. lia.
  - exact Hyes.
Qed.

Lemma wait_postgres_never_ready (host : Host) (st : State) :
  never_ready host ->
  wait_postgres host maxAttempts 1 st
  = (inl "Postgres not ready after 60 attempts.",
     {| env := env st; console := console st;
        spawned := spawned st ++ probes maxAttempts (env st) |}).
Proof.
  intros Hnever.
  apply (wait_postgres_never host maxAttempts 1 st); try (unfold maxAttempts; lia).
  exact Hnever.
Qed.

(** X13.  The wait loop probes Postgres once per attempt and no more
    than needed: when attempt [k] is the first accepted one, [k] of 1 to
    60, it prints "Postgres is ready." after exactly [k] probes; when
    none of the 60 attempts is accepted, it throws "Postgres not ready
    after 60 attempts." after exactly 60 probes. *)
Theorem wait_postgres_bounds (host : Host) (st : State) :
  (forall k, first_ready host k ->
     wait_postgres host maxAttempts 1 st
     = (inr tt, {| env := env st;
                   console := console st ++ ["Postgres is ready."];
                   spawned := spawned st ++ probes k (env st) |}))
  /\ (never_ready host ->
        wait_postgres host maxAttempts 1 st
        = (inl "Postgres not ready after 60 attempts.",
           {| env := env st; console := console st;
              spawned := spawned st ++ probes maxAttempts (env st) |})).
Proof.
  split.
  - intros k Hk. apply wait_postgres_first_ready, Hk.
  - apply wait_postgres_never_ready.
Qed.

End RunAllExtras.

Section RunAllPhases.
Import RunAll.

Lemma banner_runs (host : Host) (st : State) :
  exists lines,
    banner host st = (inr tt, {| env := env st; console := lines; spawned := spawned st |}).
Proof. eexists. reflexivity. Qed.

Lemma set_purge_runs (p : Params) (st : State) :
  exists lines,
    set_purge p st
    = (inr tt, {| env := <["PURGE_DEALS_ON_START" := if KeepHistory p then "0" else "1"]> (env st);
                  console := lines; spawned := spawned st |}).
Proof. unfold set_purge. destruct (KeepHistory p); eexists; reflexivity. Qed.

Lemma invoke_starts (host : Host) (cmd : string) :
  start_error host cmd = None -> invoke host cmd = run_child cmd.
Proof. intros Hc. unfold invoke. rewrite Hc. reflexivity. Qed.

Lemma invoke_fails (host : Host) (cmd err : string) :
  start_error host cmd = Some err -> invoke host cmd = throw err.
Proof. intros Hc. unfold invoke. rewrite Hc. reflexivity. Qed.

Lemma start_services_unfold (host : Host) (st : State) :
  start_error host (compose_cmd host) = None ->
  start_services host st
  = wait_postgres host maxAttempts 1
      {| env := env st;
         console := (console st ++ [nl ++ "[1/4] Starting docker services..."])
                    ++ [nl ++ "[2/4] Waiting for Postgres to be ready..."];
         spawned := spawned st ++ [(compose_cmd host, env st)] |}.
Proof.
  intros Hc. unfold start_services. fold (compose_cmd host).
  rewrite (invoke_starts _ _ Hc). reflexivity.
Qed.

Lemma start_services_ready (host : Host) (k : nat) (st : State) :
  start_error host (compose_cmd host) = None ->
  first_ready host k ->
  exists lines,
    start_services host st
    = (inr tt, {| env := env st; console := lines;
                  spawned := spawned st ++ (compose_cmd host, env st) :: probes k (env st) |}).
Proof.
  intros Hc Hk. eexists. rewrite (start_services_unfold _ _ Hc).
  rewrite (wait_postgres_first_ready host _ k Hk). cbn [env console spawned].
  rewrite <- !app_assoc. reflexivity.
Qed.

Lemma start_services_never (host : Host) (st : State) :
  start_error host (compose_cmd host) = None ->
  never_ready host ->
  exists lines,
    start_services host st
    = (inl "Postgres not ready after 60 attempts.",
       {| env := env st; console := lines;
          spawned := spawned st ++ (compose_cmd host, env st)
                                   :: probes maxAttempts (env st) |}).
Proof.
  intros Hc Hn. eexists. rewrite (start_services_unfold _ _ Hc).
  rewrite (wait_postgres_never_ready host _ Hn). cbn [env console spawned].
  rewrite <- !app_assoc. reflexivity.
Qed.

(** Where docker compose cannot be started the script ends there, with
    no probe. *)
Lemma start_services_fails (host : Host) (st : State) (err : string) :
  start_error host (compose_cmd host) = Some err ->
  exists lines,
    start_services host st
    = (inl err, {| env := env st; console := lines; spawned := spawned st |}).
Proof.
  intros Hc. eexists. unfold start_services. fold (compose_cmd host).
  rewrite (invoke_fails _ _ _ Hc). reflexivity.
Qed.

Lemma ingest_and_report_runs (host : Host) (st : State) :
  can_start host
    [ingestion_cmd host;
     python host ++ " " ++ Join_Path (backend host) "make_top_deals_html.py";
     "docker exec -it " ++ container ++ " psql -U deals -d deals -c <summary>";
     "docker exec -it " ++ container ++ " psql -U deals -d deals -c <active by category>"] ->
  exists lines,
    ingest_and_report host st
    = (inr tt, {| env := env st; console := lines;
                  spawned := spawned st
                             ++ with_env (env st)
                                  [ingestion_cmd host;
                                   python host ++ " "
                                   ++ Join_Path (backend host) "make_top_deals_html.py";
                                   "docker exec -it " ++ container
                                   ++ " psql -U deals -d deals -c <summary>";
                                   "docker exec -it " ++ container
                                   ++ " psql -U deals -d deals -c <active by category>"] |}).
Proof.
  intros Hstart.
  apply List.Forall_cons_iff in Hstart as [H1 Hstart].
  apply List.Forall_cons_iff in Hstart as [H2 Hstart].
  apply List.Forall_cons_iff in Hstart as [H3 Hstart].
  apply List.Forall_cons_iff in Hstart as [H4 _].
  eexists. unfold ingest_and_report.
  rewrite (invoke_starts _ _ H1), (invoke_starts _ _ H2),
    (invoke_starts _ _ H3), (invoke_starts _ _ H4).
  unfold mbind, Script_bind, Write_Host, run_child, with_env.
  cbn [env console spawned List.map]. rewrite <- !app_assoc. reflexivity.
Qed.

Lemma open_html_runs (host : Host) (p : Params) (st : State) :
  can_start host
    (if NoOpen p then [] else ["Start-Process " ++ Join_Path (backend host) "top_deals.html"]) ->
  exists lines,
    open_html host p st
    = (inr tt, {| env := env st; console := lines;
                  spawned := spawned st
                             ++ with_env (env st)
                                  (if NoOpen p then []
                                   else ["Start-Process "
                                         ++ Join_Path (backend host) "top_deals.html"]) |}).
Proof.
  unfold open_html, with_env. destruct (NoOpen p); intros Hstart; eexists; simpl.
  - rewrite app_nil_r. reflexivity.
  - apply List.Forall_cons_iff in Hstart as [Hs _].
    rewrite (invoke_starts _ _ Hs). reflexivity.
Qed.

End RunAllPhases.

Section RunAllOrder.
Import RunAll.

Lemma with_env_replicate (e : gmap string string) (n : nat) (c : string) :
  with_env e (replicate n c) = replicate n (c, e).
Proof. induction n as [| n IH]; simpl; [reflexivity |]. rewrite IH. reflexivity. Qed.

Lemma with_env_app (e : gmap string string) (l l' : list string) :
  with_env e (l ++ l') = (with_env e l ++ with_env e l')%list.
Proof. apply List.map_app. Qed.

Lemma check_venv_passes (host : Host) (st : State) :
  python_exists host = true -> check_venv host st = (inr tt, st).
Proof. intros Hpy. unfold check_venv. rewrite Hpy. reflexivity. Qed.

Section EnvKept.
Variable Q : gmap string string -> Prop.

Lemma keeps_env_Write_Host line : keeps (fun st => Q (env st)) (Write_Host line).
Proof. intros st Hst. exact Hst. Qed.

Lemma keeps_env_run_child cmd : keeps (fun st => Q (env st)) (run_child cmd).
Proof. intros st Hst. exact Hst. Qed.

Lemma keeps_env_invoke host cmd : keeps (fun st => Q (env st)) (invoke host cmd).
Proof.
  unfold invoke. destruct (start_error host cmd); [apply keeps_throw | apply keeps_env_run_child].
Qed.

Lemma keeps_env_wait_postgres host left i :
  keeps (fun st => Q (env st)) (wait_postgres host left i).
Proof.
  revert i. induction left as [| left IH]; intros i; simpl.
  - apply keeps_mret.
  - apply keeps_mbind; [apply keeps_env_run_child |]. intros _.
    destruct (pg_accepts host i); [apply keeps_env_Write_Host |].
    destruct (Nat.eqb i maxAttempts); [apply keeps_throw | apply IH].
Qed.

Lemma keeps_env_after_switch host p :
  keeps (fun st => Q (env st))
    (start_services host ≫= fun _ => ingest_and_report host ≫= fun _ => open_html host p).
Proof.
  apply keeps_mbind.
  { unfold start_services.
    repeat lazymatch goal with
           | |- keeps _ (_ ≫= _) =>
               apply keeps_mbind;
               [first [apply keeps_env_Write_Host | apply keeps_env_invoke] | intros _]
           end.
    apply keeps_env_wait_postgres. }
  intros _. apply keeps_mbind.
  { unfold ingest_and_report.
    repeat lazymatch goal with
           | |- keeps _ (_ ≫= _) =>
               apply keeps_mbind;
               [first [apply keeps_env_Write_Host | apply keeps_env_invoke] | intros _]
           end.
    apply keeps_env_invoke. }
  intros _. unfold open_html. destruct (negb (NoOpen p)).
  - apply keeps_mbind; [apply keeps_env_Write_Host | intros _; apply keeps_env_invoke].
  - apply keeps_env_Write_Host.
Qed.

End EnvKept.

(** X14.  Without the venv python the script stops at the check: it
    throws "Venv python not found at: ... (did you create .venv?)" with
    the four banner lines printed, no process started and the
    environment untouched, whatever the switches. *)
Theorem run_all_stops_without_venv (host : Host) (p : Params) (e : gmap string string) :
  python_exists host = false ->
  run_all host p (start e)
  = (inl ("Venv python not found at: " ++ python host ++ " (did you create .venv?)"),
     {| env := e;
        console := ["Backend: " ++ backend host; "Compose:  " ++ composeFile host;
                    "Python:   " ++ python host; "Container:" ++ container];
        spawned := [] |}).
Proof.
  intros Hpy. unfold run_all, check_venv. rewrite Hpy. reflexivity.
Qed.

Lemma can_start_pipeline (host : Host) (p : Params) :
  can_start host (pipeline_cmds host p) ->
  can_start host
    [ingestion_cmd host;
     python host ++ " " ++ Join_Path (backend host) "make_top_deals_html.py";
     "docker exec -it " ++ container ++ " psql -U deals -d deals -c <summary>";
     "docker exec -it " ++ container ++ " psql -U deals -d deals -c <active by category>"]
  /\ can_start host
       (if NoOpen p then []
        else ["Start-Process " ++ Join_Path (backend host) "top_deals.html"]).
Proof. unfold can_start, pipeline_cmds. apply List.Forall_app. Qed.

(** The script up to the wait for Postgres, on a machine with the venv
    python. *)
Lemma run_all_to_services (host : Host) (p : Params) (e : gmap string string) :
  python_exists host = true ->
  exists lines,
    run_all host p (start e)
    = (start_services host ≫= fun _ => ingest_and_report host ≫= fun _ => open_html host p)
        {| env := <["PURGE_DEALS_ON_START" := if KeepHistory p then "0" else "1"]> e;
           console := lines; spawned := [] |}.
Proof.
  intros Hpy. unfold run_all.
  destruct (banner_runs host (start e)) as [l1 H1].
  rewrite (mbind_returned _ _ _ _ _ H1).
  rewrite (mbind_returned _ _ _ _ _ (check_venv_passes host _ Hpy)).
  destruct (set_purge_runs p {| env := env (start e); console := l1;
                                spawned := spawned (start e) |}) as [l2 H2].
  rewrite (mbind_returned _ _ _ _ _ H2). cbn [env console spawned start].
  exists l2. reflexivity.
Qed.

(** X15.  On a machine with the venv python where every command of the
    script can be started and Postgres first accepts at attempt [k],
    the script runs to its end and starts, in this order and nothing
    else: docker compose up, [k] probes, the ingestion, the HTML
    generation, the two summary queries and, unless [-NoOpen] is
    passed, the opening of the HTML; each with the purge switch set in
    its environment. *)
Theorem run_all_runs_in_order (host : Host) (p : Params) (e : gmap string string) (k : nat) :
  python_exists host = true -> first_ready host k ->
  can_start host (compose_cmd host :: pipeline_cmds host p) ->
  let e' := <["PURGE_DEALS_ON_START" := if KeepHistory p then "0" else "1"]> e in
  (run_all host p (start e)).1 = inr tt
  /\ env (run_all host p (start e)).2 = e'
  /\ spawned (run_all host p (start e)).2
     = with_env e' (compose_cmd host :: replicate k probe_cmd ++ pipeline_cmds host p).
Proof.
  intros Hpy Hk Hstart e'.
  apply List.Forall_cons_iff in Hstart as [Hc Hstart].
  apply can_start_pipeline in Hstart as [Hpipe Hopen].
  destruct (run_all_to_services host p e Hpy) as [l2 ->]. fold e'.
  destruct (start_services_ready host k {| env := e'; console := l2; spawned := [] |} Hc Hk)
    as [l3 H3].
  rewrite (mbind_returned _ _ _ _ _ H3). cbn [env console spawned].
  match goal with
  | |- context [ (ingest_and_report host ≫= _) ?st ] =>
      destruct (ingest_and_report_runs host st Hpipe) as [l4 H4]
  end.
  rewrite (mbind_returned _ _ _ _ _ H4). cbn [env console spawned].
  match goal with
  | |- context [ open_html host p ?st ] =>
      destruct (open_html_runs host p st Hopen) as [l5 H5]
  end.
  rewrite H5. cbn [fst snd env console spawned].
  split; [reflexivity |]. split; [reflexivity |].
  unfold pipeline_cmds, probes. rewrite <- with_env_replicate.
  unfold with_env. cbn [List.map]. rewrite !List.map_app, app_nil_l.
  rewrite <- !app_assoc. reflexivity.
Qed.

(** X16.  On a machine with the venv python, where docker compose can
    be started and Postgres accepts none of the 60 attempts, the script
    throws "Postgres not ready after 60 attempts." having started
    docker compose up and the 60 probes and nothing after them: no
    ingestion runs against a database that is not ready, and no HTML is
    generated.  Where docker compose cannot be started, the script ends
    with the error of that command and has started nothing, not a
    probe either. *)
Theorem run_all_stops_without_postgres (host : Host) (p : Params) (e : gmap string string) :
  python_exists host = true ->
  let e' := <["PURGE_DEALS_ON_START" := if KeepHistory p then "0" else "1"]> e in
  (start_error host (compose_cmd host) = None -> never_ready host ->
     (run_all host p (start e)).1 = inl "Postgres not ready after 60 attempts."
     /\ spawned (run_all host p (start e)).2
        = with_env e' (compose_cmd host :: replicate maxAttempts probe_cmd))
  /\ (forall err, start_error host (compose_cmd host) = Some err ->
        (run_all host p (start e)).1 = inl err
        /\ spawned (run_all host p (start e)).2 = []).
Proof.
  intros Hpy e'.
  destruct (run_all_to_services host p e Hpy) as [l2 ->]. fold e'.
  split.
  - intros Hc Hn.
    destruct (start_services_never host {| env := e'; console := l2; spawned := [] |} Hc Hn)
      as [l3 H3].
    unfold mbind, Script_bind. rewrite H3. cbn [fst snd env console spawned].
    split; [reflexivity |].
    unfold probes. rewrite <- with_env_replicate. reflexivity.
  - intros err Hc.
    destruct (start_services_fails host {| env := e'; console := l2; spawned := [] |} err Hc)
      as [l3 H3].
    unfold mbind, Script_bind. rewrite H3. split; reflexivity.
Qed.

(** X17.  The script changes no environment variable but the purge
    switch: after any invocation, finished or thrown, the environment
    is the one it started with, with [PURGE_DEALS_ON_START] set when the
    venv check passed and nothing set when it did not. *)
Theorem run_all_environment (host : Host) (p : Params) (e : gmap string string) :
  env (run_all host p (start e)).2
  = if python_exists host
    then <["PURGE_DEALS_ON_START" := if KeepHistory p then "0" else "1"]> e
    else e.
Proof.
  destruct (python_exists host) eqn:Hpy.
  - destruct (run_all_to_services host p e Hpy) as [l2 ->].
    apply (keeps_env_after_switch
             (fun x => x = <["PURGE_DEALS_ON_START" := if KeepHistory p then "0" else "1"]> e)
             host p).
    reflexivity.
  - unfold run_all, check_venv. rewrite Hpy. reflexivity.
Qed.

End RunAllOrder.


(** ** The further properties on inputs *)

Lemma list_pages_one_card_per_item_witness :
  match Js.outcome (Pages.Page_view Api.hot (Js.VObj payload_fields)) with
  | inr view => length (Pages.tv_cards view) = 2%nat
  | inl _ => False
  end.
Proof.
  destruct (list_pages_one_card_per_item Api.hot "toys" payload_fields
              [sample_deal; sample_deal] eq_refl) as (Htop & _ & _ & _).
  destruct (Js.outcome (Pages.Page_view Api.hot (Js.VObj payload_fields)))
    as [e | view] eqn:E.
  - vm_compute in E. discriminate E.
  - destruct (Htop view eq_refl) as [_ Hlen]. exact Hlen.
Defined.

Lemma list_pages_items_edge_cases_witness :
  Js.outcome (Pages.CategoryPage_view "toys" (Js.VObj ([] : list (string * Js.value Rat.num))))
  = inr {| Pages.cv_slug := "toys"; Pages.cv_cards := [] |}
  /\ Js.outcome (Pages.Page_view Api.hot
                   (Js.VObj [("items", Js.VStr "none" : Js.value Rat.num)]))
     = inl (Js.TypeError "items.map is not a function").
Proof.
  split.
  - destruct (list_pages_items_edge_cases (num := Rat.num) Api.hot "toys" [])
      as (Hfalsy & _).
    destruct (Hfalsy eq_refl) as [_ Hcat]. exact Hcat.
  - destruct (list_pages_items_edge_cases (num := Rat.num) Api.hot "toys"
                [("items", Js.VStr "none")]) as (_ & Hother & _).
    destruct (Hother eq_refl ltac:(discriminate)) as [Htop _]. exact Htop.
Defined.

Lemma list_pages_fail_on_one_bad_item_witness :
  exists e, Js.outcome (Pages.Page_view Api.hot (Js.VObj payload_with_null_item)) = inl e.
Proof.
  destruct (list_pages_fail_on_one_bad_item Api.hot "toys" payload_with_null_item
              [sample_deal; Js.VNull] Js.VNull eq_refl
              ltac:(right; left; reflexivity)) as (_ & _ & Hnull).
  destruct (Hnull eq_refl) as [Htop _]. exact Htop.
Defined.

Lemma record_renders_iff_prices_are_numbers_witness :
  returns (Pages.DealPage_view (Js.VObj record_without_discount))
  /\ ~ returns (Pages.Page_card
                  (Js.VObj [("price_current", Js.VStr "12.50" : Js.value Rat.num)])).
Proof.
  split.
  - destruct (record_renders_iff_prices_are_numbers record_without_discount eq_refl)
      as (_ & _ & Hdeal & _).
    apply Hdeal. reflexivity.
  - destruct (record_renders_iff_prices_are_numbers (num := Rat.num)
                [("price_current", Js.VStr "12.50")] eq_refl) as (Htop & _).
    intros Hr. apply Htop in Hr. discriminate Hr.
Defined.

Lemma missing_number_renders_as_zero_witness :
  missing record_without_discount "discount_pct_90d" = true
  /\ Pages.DealPage_view
       (Js.VObj (("discount_pct_90d", Js.VNum Js.n0) :: record_without_discount))
     = Pages.DealPage_view (Js.VObj record_without_discount).
Proof.
  split; [reflexivity |].
  destruct (missing_number_renders_as_zero record_without_discount "discount_pct_90d"
              eq_refl) as [Hdeal _].
  apply Hdeal. right; right; left. reflexivity.
Defined.

Lemma pct_dash_iff_missing_witness :
  returns (Pages.pct (Js.VNum (Some 0%Q) : Js.value Rat.num))
  /\ Js.outcome (Pages.pct (Js.VNum (Some 0%Q) : Js.value Rat.num)) <> inr "-"
  /\ exists msg,
       Js.outcome (Pages.pct (Js.VObj [("toString", Js.VNum (Some 0%Q))] : Js.value Rat.num))
       = inl (Js.TypeError msg).
Proof.
  destruct (pct_dash_iff_missing (Js.VNum (Some 0%Q) : Js.value Rat.num))
    as (Hreturned & Hscalar & _).
  destruct (pct_dash_iff_missing
              (Js.VObj [("toString", Js.VNum (Some 0%Q))] : Js.value Rat.num))
    as (_ & _ & Hthrows).
  split; [apply Hscalar; reflexivity |]. split.
  - intros Heq. destruct (Hreturned _ Heq) as [[Hd _] _]. discriminate (Hd eq_refl).
  - apply (Hthrows _ eq_refl). discriminate.
Defined.

Lemma DealPage_optional_parts_witness :
  match Js.outcome (Pages.DealPage_view (Js.VObj record_without_discount)) with
  | inr view =>
      Pages.dv_hot view = None
      /\ exists block, Pages.dv_demand view = Some block /\ Pages.db_rank block = ""
  | inl _ => False
  end.
Proof.
  destruct (Js.outcome (Pages.DealPage_view (Js.VObj record_without_discount)))
    as [e | view] eqn:E.
  - vm_compute in E. discriminate E.
  - destruct (DealPage_optional_parts record_without_discount view E)
      as (Hhot & Hdem & Hseg).
    split; [apply Hhot; reflexivity |].
    destruct (Pages.dv_demand view) as [block |] eqn:Eb.
    + exists block. split; [reflexivity |].
      destruct (Hseg block eq_refl) as (Hrank & _ & _). apply Hrank. reflexivity.
    + destruct Hdem as [Hd _]. discriminate (Hd eq_refl).
Defined.

Lemma first_ready_host_ready : first_ready host_ready 3.
Proof.
  split; [unfold RunAll.maxAttempts; lia |]. split; [reflexivity |].
  intros j Hj. destruct j as [| [| [| j]]]; try reflexivity; lia.
Qed.

Lemma wait_postgres_bounds_witness :
  (RunAll.wait_postgres host_ready RunAll.maxAttempts 1 (RunAll.start ∅)).1 = inr tt
  /\ length (RunAll.spawned
               (RunAll.wait_postgres host_ready RunAll.maxAttempts 1 (RunAll.start ∅)).2)
     = 3%nat
  /\ (RunAll.wait_postgres host_without_postgres RunAll.maxAttempts 1 (RunAll.start ∅)).1
     = inl "Postgres not ready after 60 attempts.".
Proof.
  destruct (wait_postgres_bounds host_ready (RunAll.start ∅)) as [Hready _].
  destruct (wait_postgres_bounds host_without_postgres (RunAll.start ∅)) as [_ Hnever].
  rewrite (Hready 3 first_ready_host_ready).
  rewrite (Hnever ltac:(intros j _; reflexivity)).
  repeat split.
Defined.

Lemma run_all_stops_without_venv_witness :
  RunAll.spawned (RunAll.run_all host_without_venv keep_history (RunAll.start ∅)).2 = [].
Proof.
  rewrite (run_all_stops_without_venv host_without_venv keep_history ∅ eq_refl).
  reflexivity.
Defined.

Lemma run_all_runs_in_order_witness :
  List.map fst (RunAll.spawned (RunAll.run_all host_ready purge_by_default (RunAll.start ∅)).2)
  = compose_cmd host_ready :: replicate 3 probe_cmd
    ++ pipeline_cmds host_ready purge_by_default.
Proof.
  destruct (run_all_runs_in_order host_ready purge_by_default ∅ 3 eq_refl
              first_ready_host_ready ltac:(vm_compute; repeat constructor))
    as (_ & _ & Hspawned).
  rewrite Hspawned. unfold with_env. rewrite List.map_map. apply List.map_id.
Defined.

Lemma run_all_stops_without_postgres_witness :
  (RunAll.run_all host_without_postgres purge_by_default (RunAll.start ∅)).1
  = inl "Postgres not ready after 60 attempts."
  /\ length (RunAll.spawned
               (RunAll.run_all host_without_postgres purge_by_default (RunAll.start ∅)).2)
     = 61%nat
  /\ (RunAll.run_all host_without_docker purge_by_default (RunAll.start ∅)).1
     = inl "The term 'docker' is not recognized as the name of a cmdlet, function, script file, or operable program."
  /\ RunAll.spawned (RunAll.run_all host_without_docker purge_by_default (RunAll.start ∅)).2
     = [].
Proof.
  destruct (run_all_stops_without_postgres host_without_postgres purge_by_default ∅ eq_refl)
    as [Hnever _].
  destruct (Hnever eq_refl ltac:(intros j _; reflexivity)) as [Hthrown Hspawned].
  destruct (run_all_stops_without_postgres host_without_docker purge_by_default ∅ eq_refl)
    as [_ Hfails].
  destruct (Hfails _ eq_refl) as [Herr Hnone].
  split; [exact Hthrown |]. split; [rewrite Hspawned; reflexivity |].
  split; [exact Herr | exact Hnone].
Defined.

Lemma list_pages_queries_witness :
  requests server_200 (Pages.CategoryPage None "toys")
  = [("http://127.0.0.1:8000/api/deals?limit=100&sort=hot&category=toys",
      {| Api.cache := "no-store" |})]
  /\ requests server_200 (Pages.Page None (Some (Some "deal")))
     = [("http://127.0.0.1:8000/api/deals?limit=100&sort=deal",
         {| Api.cache := "no-store" |})].
Proof.
  assert (Hurl : Api.new_URL (Api.API_BASE None ++ "/api/deals")
                 = inr {| Api.location := "http://127.0.0.1:8000/api/deals";
                          Api.searchParams := [] |}) by reflexivity.
  destruct (list_pages_queries None (Some (Some "deal")) "toys" server_200 _ Hurl)
    as (Htop & Hcat & _).
  split; [exact Hcat | exact Htop].
Defined.

Lemma Page_card_hot_falls_back_witness :
  match Js.outcome (Pages.Page_card sample_deal) with
  | inr card => Pages.tc_hot card = Pages.tc_deal card
  | inl _ => False
  end.
Proof.
  destruct (Js.outcome (Pages.Page_card sample_deal)) as [e | card] eqn:E.
  - vm_compute in E. discriminate E.
  - apply (Page_card_hot_falls_back sample_deal card E).
    intros v Hv. vm_compute in Hv. injection Hv as <-. reflexivity.
Defined.
